(** * Gaussian process regression (GPR): likelihood and posterior sampling

    A shallow embedding of [include/Likelihood.h] and of the posterior
    test driver [tests/PosteriorProcessTest.cpp].

    Modelling conventions
    - [TScalarType] (instantiated at [double]) is the type [R] of real
      numbers: the development is about the exact-arithmetic content of
      the algorithms; rounding is not part of the model.  Where the
      sources take [std::sqrt] of a value that can be negative and branch
      on the result, the value is a [double]: a real number or NaN.
    - An Eigen [VectorType] is a [list R]; an Eigen [MatrixType] is the
      list of its rows.  Eigen's coefficient-wise and product expressions
      are written coefficient by coefficient over the index ranges Eigen
      uses, so the sizes of the results are the sizes Eigen computes.
      Eigen states its size requirements as [eigen_assert]s, which are
      compiled out under [NDEBUG]; an expression whose operands disagree
      in size has here the value Eigen computes without the assertion.
      Where how a run ends depends on the assertion, it is modelled with
      its abort ([Driver.checked_draw]).
      Reading outside a vector yields [0] (Eigen leaves it undefined).
      The number of columns is read off the first row, so a matrix
      without rows has no columns.
    - [Index] arithmetic is arithmetic in [Z], with C++ division
      ([Z.quot], rounding toward zero).
    - [throw std::string(..)] is the [Thrown] outcome carrying the text. *)

From Stdlib Require Import Reals Lra Lia ZArith List String.
From stdpp Require Import base list sorting.

Open Scope R_scope.

Abbreviation VectorType := (list R).
Abbreviation MatrixType := (list (list R)).

#[global] Instance R_inhabited : Inhabited R := populate 0.

(** ** Finite sums *)

Fixpoint sum_n (n : nat) (f : nat -> R) : R :=
  match n with
  | O => 0
  | S k => sum_n k f + f k
  end.

#[global] Instance Rgt_decision (x y : R) : Decision (x > y) := Rgt_dec x y.

(** ** The fragment of Eigen used by the sources *)

Module Eigen.

Definition rows (m : MatrixType) : nat := length m.
Definition cols (m : MatrixType) : nat := length (m !!! 0%nat).
Definition coeff (m : MatrixType) (i j : nat) : R := (m !!! i) !!! j.

(** [VectorType v(n)] filled coefficient by coefficient. *)
Definition tabulate (n : nat) (f : nat -> R) : VectorType :=
  f <$> seq 0 n.

(** [MatrixType m(r, c)] filled coefficient by coefficient. *)
Definition tabulate2 (r c : nat) (f : nat -> nat -> R) : MatrixType :=
  (fun i => tabulate c (f i)) <$> seq 0 r.

Definition Zero (n : nat) : VectorType := tabulate n (fun _ => 0).
Definition Zero2 (r c : nat) : MatrixType := tabulate2 r c (fun _ _ => 0).
Definition Identity (n : nat) : MatrixType :=
  tabulate2 n n (fun i j => if decide (i = j) then 1 else 0).

(** [m.adjoint()]; the scalars are real, so this is the transpose. *)
Definition adjoint (m : MatrixType) : MatrixType :=
  tabulate2 (cols m) (rows m) (fun j i => coeff m i j).

(** [m.transpose()]. *)
Abbreviation transpose := adjoint.

(** [a * b] for matrices: [a.rows() x b.cols()], summing over
    [a.cols()]. *)
Definition mul (a b : MatrixType) : MatrixType :=
  tabulate2 (rows a) (cols b)
    (fun i j => sum_n (cols a) (fun k => coeff a i k * coeff b k j)).

(** [a * v] for a matrix and a column vector. *)
Definition mul_vec (a : MatrixType) (v : VectorType) : VectorType :=
  tabulate (rows a) (fun i => sum_n (cols a) (fun k => coeff a i k * v !!! k)).

(** [u.adjoint() * a]: a row vector times a matrix. *)
Definition vec_mul (u : VectorType) (a : MatrixType) : VectorType :=
  tabulate (cols a) (fun j => sum_n (length u) (fun k => u !!! k * coeff a k j)).

(** [u.adjoint() * v], a scalar. *)
Definition dot (u v : VectorType) : R :=
  sum_n (length u) (fun k => u !!! k * v !!! k).

(** [s * m] for a scalar [s]. *)
Definition scale (s : R) (m : MatrixType) : MatrixType :=
  tabulate2 (rows m) (cols m) (fun i j => s * coeff m i j).

(** [a - b]; a coefficient-wise binary expression over two dynamic
    operands takes its size from the right operand. *)
Definition sub (a b : MatrixType) : MatrixType :=
  tabulate2 (rows b) (cols b) (fun i j => coeff a i j - coeff b i j).

(** [u + v] on vectors. *)
Definition add_vec (u v : VectorType) : VectorType :=
  tabulate (length v) (fun i => u !!! i + v !!! i).

(** [u.array() * v.array()]. *)
Definition cwise_mul (u v : VectorType) : VectorType :=
  tabulate (length v) (fun i => u !!! i * v !!! i).

(** [v.array() + s] for a scalar [s]. *)
Definition add_scalar (v : VectorType) (s : R) : VectorType :=
  (fun d => d + s) <$> v.

(** [v.array().sqrt()]. *)
Definition cwise_sqrt (v : VectorType) : VectorType := sqrt <$> v.

(** [m * d.asDiagonal()]. *)
Definition mul_diag (m : MatrixType) (d : VectorType) : MatrixType :=
  tabulate2 (rows m) (length d) (fun i k => coeff m i k * d !!! k).

(** [m.norm()], the Frobenius norm. *)
Definition squaredNorm (m : MatrixType) : R :=
  sum_n (rows m) (fun i => sum_n (cols m) (fun j => coeff m i j * coeff m i j)).
Definition norm (m : MatrixType) : R := sqrt (squaredNorm m).

(** [m.rowwise().reverse()]; [v.reverse()] is [reverse v]. *)
Definition rowwise_reverse (m : MatrixType) : MatrixType := reverse <$> m.

(** [v.topRows(n)], [m.topLeftCorner(r, c)]. *)
Definition topRows (n : nat) (v : VectorType) : VectorType := take n v.
Definition topLeftCorner (r c : nat) (m : MatrixType) : MatrixType :=
  take c <$> take r m.

(** An [r x c] matrix. *)
Definition shape (r c : nat) (m : MatrixType) : Prop :=
  length m = r /\ Forall (fun row : VectorType => length row = c) m.

(** [m(i, j) = x]. *)
Definition set_coeff (m : MatrixType) (i j : nat) (x : R) : MatrixType :=
  <[i := <[j := x]> (m !!! i)]> m.

(** [(v.array() > 0).count()]. *)
Definition count_positive (v : VectorType) : nat :=
  length (filter (fun x => x > 0) v).

(** [m.col(k)], and the columns of [m] from left to right. *)
Definition col (m : MatrixType) (k : nat) : VectorType :=
  (fun row : VectorType => row !!! k) <$> m.
Definition colwise (m : MatrixType) : list VectorType :=
  col m <$> seq 0 (cols m).

(** A matrix expression stored into a [VectorType]: the vector receives
    the leading column.  Eigen requires the expression to have a single
    column; then this is the whole expression. *)
Definition as_vector (m : MatrixType) : VectorType :=
  tabulate (rows m) (fun i => coeff m i 0).

End Eigen.

(** ** C++ exceptions *)

Inductive outcome (A : Type) : Type :=
| Returned (a : A)
| Thrown (what : string).
Arguments Returned {A} a.
Arguments Thrown {A} what.

Definition bind {A B : Type} (c : outcome A) (k : A -> outcome B) : outcome B :=
  match c with
  | Returned a => k a
  | Thrown s => Thrown s
  end.

(** [try { c } catch (std::string&) { throw std::string(s); }] *)
Definition try_catch_rethrow {A : Type} (c : outcome A) (s : string) : outcome A :=
  match c with
  | Returned a => Returned a
  | Thrown _ => Thrown s
  end.

(** ** Not-a-number

    [std::sqrt] of a negative number is NaN, an arithmetic operation
    with a NaN operand is NaN, and [!=] is true when an operand is
    NaN. *)

Inductive double : Type :=
| Num (r : R)
| NaN.

Definition std_sqrt (x : double) : double :=
  match x with
  | Num r => if Rlt_dec r 0 then NaN else Num (sqrt r)
  | NaN => NaN
  end.

Definition double_op (op : R -> R -> R) (x y : double) : double :=
  match x, y with
  | Num a, Num b => Num (op a b)
  | _, _ => NaN
  end.

Definition double_mul : double -> double -> double := double_op Rmult.
Definition double_sub : double -> double -> double := double_op Rminus.

(** [x != y]. *)
Definition double_ne (x y : double) : bool :=
  match x, y with
  | Num a, Num b => if Req_dec_T a b then false else true
  | _, _ => true
  end.

(** ** The Gaussian process engine seen from [Likelihood.h] and the tests

    [GaussianProcess.h] is not among the sources.  The engine is the
    record of what its interface exposes: the kernel it was built with,
    the sample store, the noise term, and the pair computed by
    [ComputeCoreMatrix]. *)

Record GaussianProcess : Type := {
  m_Kernel : VectorType -> VectorType -> R;
  m_Samples : list (VectorType * VectorType);
  m_Sigma : R;
  m_CoreMatrix : MatrixType;
  m_Determinant : R
}.

Definition SampleVectors (gp : GaussianProcess) : list VectorType :=
  fst <$> m_Samples gp.

(** Modelled from the spec: [GaussianProcess::ComputeLabelMatrix], absent
    from the sources.  Rows are samples, columns are output dimensions. *)
Definition ComputeLabelMatrix (gp : GaussianProcess) : MatrixType :=
  snd <$> m_Samples gp.

(** Modelled from the spec: [GaussianProcess::ComputeCoreMatrix], absent
    from the sources.  It yields the core matrix and returns the
    determinant of [K + sigma I].  [Likelihood.h] reads the two values
    as they come; that the one is the determinant of the inverse of the
    other is a property of the engine, not used here. *)
Definition ComputeCoreMatrix (gp : GaussianProcess) : R * MatrixType :=
  (m_Determinant gp, m_CoreMatrix gp).

(** ** [Likelihood.h] *)

Module Likelihood.

Definition not_implemented : string :=
  "Likelihood: operator() is not implemented.".

Definition invalid_determinant : string :=
  "GaussianLogLikelihood: determinant of K is smaller or equal to zero.".

(** The interface: [operator()] and [ToString]. *)
Class Likelihood (T : Type) : Type := {
  call : T -> GaussianProcess -> outcome VectorType;
  ToString : T -> string
}.

(** [Likelihood::operator()], the body inherited by a subclass that
    does not override it. *)
Definition Likelihood_call (gp : GaussianProcess) : outcome VectorType :=
  Thrown not_implemented.

Definition GetLabelMatrix (gp : GaussianProcess) : MatrixType :=
  ComputeLabelMatrix gp.

Definition GetCoreMatrix (gp : GaussianProcess) : R * MatrixType :=
  ComputeCoreMatrix gp.

(** [GaussianLogLikelihood::operator()]. *)
Definition GaussianLogLikelihood_call (gp : GaussianProcess)
  : outcome VectorType :=
  let Y := GetLabelMatrix gp in
  let '(determinant, C) := GetCoreMatrix gp in
  (* data fit *)
  let df := Eigen.as_vector
              (Eigen.scale (-0.5) (Eigen.mul (Eigen.mul (Eigen.adjoint Y) C) Y)) in
  (* complexity penalty *)
  if Rle_dec determinant 0 then Thrown invalid_determinant
  else
    let cp := -0.5 * ln determinant in
    (* constant term: -C.rows()/2 is a division of integers (Index is
       a signed 64-bit integer; a row count does not overflow it) *)
    let ct := IZR (Z.quot (- Z.of_nat (Eigen.rows C)) 2) * ln (2 * PI) in
    Returned (Eigen.add_scalar df (cp + ct)).

(** The concrete class, and a subclass that implements [ToString]
    only. *)
Inductive GaussianLogLikelihood : Type := mkGaussianLogLikelihood.

#[global] Instance GaussianLogLikelihood_Likelihood
  : Likelihood GaussianLogLikelihood := {
  call := fun _ => GaussianLogLikelihood_call;
  ToString := fun _ => "GaussianLogLikelihood"%string
}.

Record NamedLikelihood : Type := { name : string }.

#[global] Instance NamedLikelihood_Likelihood
  : Likelihood NamedLikelihood := {
  call := fun _ => Likelihood_call;
  ToString := name
}.

(** The specified value, written from the formula of the
    specification: for output column [j],
    [-0.5 * diag(Y^T C Y)_j - 0.5 * log det - (N/2) * log (2 pi)]. *)
Definition spec_log_likelihood (gp : GaussianProcess) : VectorType :=
  let Y := ComputeLabelMatrix gp in
  let C := m_CoreMatrix gp in
  let N := INR (length (m_Samples gp)) in
  Eigen.tabulate (Eigen.cols Y)
    (fun j => -0.5 * Eigen.coeff (Eigen.mul (Eigen.mul (Eigen.adjoint Y) C) Y) j j
              - 0.5 * ln (m_Determinant gp)
              - (N / 2) * ln (2 * PI)).

(** One sample [(x, y) = ((0), (0))] with unit core matrix. *)
Definition single_sample_gp : GaussianProcess := {|
  m_Kernel := fun _ _ => 1;
  m_Samples := [([0], [0])];
  m_Sigma := 0;
  m_CoreMatrix := [[1]];
  m_Determinant := 1
|}.

End Likelihood.

(** ** The predictor of the engine

    Modelled from the spec: [GaussianProcess::operator()(x1, x2)],
    [Predict] and [GetCredibleInterval], absent from the sources, after
    section 4.2 of the specification; [NoisyGramMatrix] and [Initialized]
    after its sections 3 and 4.1. *)

(** [k(x)]: the kernel against every training input. *)
Definition ComputeKernelVector (gp : GaussianProcess) (x : VectorType)
  : VectorType :=
  (fun xi => m_Kernel gp x xi) <$> SampleVectors gp.

(** [Kernel(x1, x2) - k(x1)^T C k(x2)]. *)
Definition Covariance (gp : GaussianProcess) (x1 x2 : VectorType) : R :=
  m_Kernel gp x1 x2
  - Eigen.dot (Eigen.vec_mul (ComputeKernelVector gp x1) (m_CoreMatrix gp))
              (ComputeKernelVector gp x2).

(** [Y^T C k(x)]. *)
Definition Predict (gp : GaussianProcess) (x : VectorType) : VectorType :=
  Eigen.mul_vec
    (Eigen.mul (Eigen.adjoint (ComputeLabelMatrix gp)) (m_CoreMatrix gp))
    (ComputeKernelVector gp x).

(** [2 sqrt(Covariance(x, x))]. *)
Definition GetCredibleInterval (gp : GaussianProcess) (x : VectorType)
  : double :=
  double_mul (Num 2) (std_sqrt (Num (Covariance gp x x))).

(** [K + sigma I] over the training inputs. *)
Definition NoisyGramMatrix (gp : GaussianProcess) : MatrixType :=
  let xs := SampleVectors gp in
  Eigen.tabulate2 (length xs) (length xs)
    (fun i j => m_Kernel gp (xs !!! i) (xs !!! j)
                + (if decide (i = j) then m_Sigma gp else 0)).

(** The state after [Initialize]: the core matrix is the inverse of
    [K + sigma I]. *)
Definition Initialized (gp : GaussianProcess) : Prop :=
  Eigen.mul (NoisyGramMatrix gp) (m_CoreMatrix gp)
    = Eigen.Identity (length (m_Samples gp))
  /\ Eigen.mul (m_CoreMatrix gp) (NoisyGramMatrix gp)
    = Eigen.Identity (length (m_Samples gp)).

Definition symmetric_kernel (gp : GaussianProcess) : Prop :=
  forall x y, m_Kernel gp x y = m_Kernel gp y x.

(** ** [PosteriorProcessTest.cpp] *)

Module PosteriorProcessTest.

(** The static generator [r] of [GetRandomVector]: an external source of
    deviates and the number of deviates drawn so far. *)
Record variate_generator : Type := {
  deviates : nat -> R;
  drawn : nat
}.

Definition r (g : variate_generator) : R * variate_generator :=
  (deviates g (drawn g), {| deviates := deviates g; drawn := S (drawn g) |}).

Definition GetRandomVector (n : nat) (g : variate_generator)
  : VectorType * variate_generator :=
  foldl (fun (st : VectorType * variate_generator) i =>
           let '(x, g') := r (snd st) in (<[i := x]> (fst st), g'))
        (Eigen.Zero n, g) (seq 0 n).

(** *** Test 1 *)

(** [2*std::sqrt(( *gp)(x,x)) - gp->GetCredibleInterval(x)], the value
    [c] of the check. *)
Definition credible_interval_difference (gp : GaussianProcess)
  (x : VectorType) : double :=
  double_sub (double_mul (Num 2) (std_sqrt (Num (Covariance gp x x))))
             (GetCredibleInterval gp x).

Definition credible_interval_check (gp : GaussianProcess) (x : VectorType)
  : outcome unit :=
  try_catch_rethrow
    (let c := credible_interval_difference gp x in
     if double_ne c (Num 0) then Thrown "credible interval not correct."
     else Returned tt)
    "error in calculating credible interval.".

Definition Test1_point (number_of_tests i : nat) : VectorType :=
  [INR i * 2 * PI / INR number_of_tests * 1.3].

(** The loop of [Test1] over an engine that has been filled and
    initialized. *)
Definition Test1_loop (gp : GaussianProcess) (number_of_tests : nat)
  : outcome unit :=
  foldl (fun (acc : outcome unit) i =>
           bind acc (fun _ =>
             credible_interval_check gp (Test1_point number_of_tests i)))
        (Returned tt) (seq 0 number_of_tests).

(** *** Test 2: the kernel matrix over the evaluation grid *)

Definition grid_point (number_of_samples i : nat) : VectorType :=
  [INR i * 5 / INR number_of_samples].

Section KernelMatrix.

(** [gp->Predict] and the call operator of [gp]. *)
Variable gp_Predict : VectorType -> VectorType.
Variable gp_call : VectorType -> VectorType -> R.
Variable number_of_samples : nat.

(** The body of the inner loop: [K(i,j)] receives the covariance of
    [x1] and [x2], then [K(j,i) = K(i,j)]. *)
Definition inner_body (i : nat) (K : MatrixType) (j : nat) : MatrixType :=
  let x1 := grid_point number_of_samples i in
  let x2 := grid_point number_of_samples j in
  let K1 := Eigen.set_coeff K i j (gp_call x1 x2) in
  Eigen.set_coeff K1 j i (Eigen.coeff K1 i j).

(** The body of the outer loop, one iteration [i]. *)
Definition outer_body (st : VectorType * MatrixType) (i : nat)
  : VectorType * MatrixType :=
  let x1 := grid_point number_of_samples i in
  (<[i := gp_Predict x1 !!! 0%nat]> (fst st),
   foldl (inner_body i) (snd st) (seq i (number_of_samples - i))).

(** The cells iteration [i] assigns, in program order. *)
Definition cells_written (i : nat) : list (nat * nat) :=
  flat_map (fun j => [(i, j); (j, i)]) (seq i (number_of_samples - i)).

(** The outer loop run over its iterations in a given order. *)
Definition kernel_matrix_in_order (order : list nat)
  : VectorType * MatrixType :=
  foldl outer_body
        (Eigen.Zero number_of_samples,
         Eigen.Zero2 number_of_samples number_of_samples)
        order.

(** The loop as written: [i = 0, ..., number_of_samples - 1]. *)
Definition kernel_matrix : VectorType * MatrixType :=
  kernel_matrix_in_order (seq 0 number_of_samples).

End KernelMatrix.

(** *** Test 2: multivariate normal samples *)

(** What [Eigen::SelfAdjointEigenSolver] computed for a matrix. *)
Record SelfAdjointEigenSolver : Type := {
  eigenvalues : VectorType;
  eigenvectors : MatrixType
}.

Definition numComponentsToKeep (es : SelfAdjointEigenSolver) : nat :=
  Eigen.count_positive ((fun l => l - 1e-10) <$> eigenvalues es).

Definition rot (K : MatrixType) (es : SelfAdjointEigenSolver) : MatrixType :=
  Eigen.topLeftCorner (Eigen.rows K) (numComponentsToKeep es)
    (Eigen.rowwise_reverse (eigenvectors es)).

(** [eigenvalues().reverse().topRows(numComponentsToKeep)]. *)
Definition kept_eigenvalues (es : SelfAdjointEigenSolver) : VectorType :=
  Eigen.topRows (numComponentsToKeep es) (reverse (eigenvalues es)).

Definition scl (es : SelfAdjointEigenSolver) : VectorType :=
  Eigen.cwise_sqrt (kept_eigenvalues es).

Definition Q (K : MatrixType) (es : SelfAdjointEigenSolver) : MatrixType :=
  Eigen.mul_diag (rot K es) (scl es).

Definition err (K : MatrixType) (es : SelfAdjointEigenSolver) : R :=
  Eigen.norm (Eigen.sub (Eigen.mul (Q K es) (Eigen.transpose (Q K es))) K).

(** The eigenpairs of a decomposition (eigenvalue [k] with column [k] of
    the eigenvectors), and the eigenpairs the truncation keeps (kept
    eigenvalue [k] with column [k] of [rot]). *)
Definition eigenpairs (es : SelfAdjointEigenSolver) : list (R * VectorType) :=
  zip (eigenvalues es) (Eigen.colwise (eigenvectors es)).

Definition kept_eigenpairs (K : MatrixType) (es : SelfAdjointEigenSolver)
  : list (R * VectorType) :=
  zip (kept_eigenvalues es) (Eigen.colwise (rot K es)).

(** An [n x n] decomposition. *)
Definition square_solver (n : nat) (es : SelfAdjointEigenSolver) : Prop :=
  length (eigenvalues es) = n
  /\ length (eigenvectors es) = n
  /\ Forall (fun row : VectorType => length row = n) (eigenvectors es).

(** The contract of the eigensolver used for the interpolation property:
    every column of [eigenvectors] is an eigenvector for the eigenvalue
    of the same index, [K V = V diag(eigenvalues)]. *)
Definition eigen_equation (K : MatrixType) (es : SelfAdjointEigenSolver)
  : Prop :=
  Eigen.mul K (eigenvectors es)
  = Eigen.mul_diag (eigenvectors es) (eigenvalues es).

(** The contract of the eigensolver used for the accuracy of the square
    root: the eigenvectors are orthonormal, [V^T V = I], and decompose
    the matrix, [K = V diag(eigenvalues) V^T]. *)
Definition orthonormal_eigenvectors (es : SelfAdjointEigenSolver) : Prop :=
  Eigen.mul (Eigen.adjoint (eigenvectors es)) (eigenvectors es)
  = Eigen.Identity (length (eigenvalues es)).

Definition spectral_decomposition (K : MatrixType)
  (es : SelfAdjointEigenSolver) : Prop :=
  K = Eigen.mul (Eigen.mul_diag (eigenvectors es) (eigenvalues es))
                (Eigen.adjoint (eigenvectors es)).

(** A covariance matrix is positive semidefinite: [v^T K v >= 0]. *)
Definition positive_semidefinite (K : MatrixType) : Prop :=
  forall v : VectorType,
    length v = Eigen.rows K -> 0 <= Eigen.dot v (Eigen.mul_vec K v).

(** The eigenvectors also have orthonormal rows, [V V^T = I]. *)
Definition orthonormal_rows (es : SelfAdjointEigenSolver) : Prop :=
  Eigen.mul (eigenvectors es) (Eigen.adjoint (eigenvectors es))
  = Eigen.Identity (length (eigenvalues es)).

(** The draw of the sampling loop, as written: the noise vector is
    requested with [number_of_samples] entries. *)
Definition draw_noise (number_of_samples : nat) (g : variate_generator)
  : VectorType * variate_generator :=
  GetRandomVector number_of_samples g.

Definition sample (rot : MatrixType) (scl z mean : VectorType) : VectorType :=
  Eigen.add_vec (Eigen.mul_vec rot (Eigen.cwise_mul z scl)) mean.

Definition draw (number_of_samples : nat) (rot : MatrixType)
  (scl mean : VectorType) (g : variate_generator)
  : VectorType * variate_generator :=
  let '(z, g') := draw_noise number_of_samples g in
  (sample rot scl z mean, g').

(** The draw in the form of the specification: [Q z + mean]. *)
Definition spec_sample (Q : MatrixType) (z mean : VectorType) : VectorType :=
  Eigen.add_vec (Eigen.mul_vec Q z) mean.

Definition off_landmark (r mean : VectorType) (i : nat) : bool :=
  bool_decide (Rabs (r !!! i - mean !!! i) > 1e-9).

Definition landmarks_check (r mean : VectorType) : outcome unit :=
  if off_landmark r mean 10 || off_landmark r mean 20
     || off_landmark r mean 30 || off_landmark r mean 40
  then Thrown "samples do not corresponds to the landmarks."
  else Returned tt.

Section Test2.

(** The eigensolver, and the text [operator<<] prints for a [double]. *)
Variable eigenSolver : MatrixType -> SelfAdjointEigenSolver.
Variable show_double : R -> string.

(** The accuracy check on [err]; [std::isnan(err)] never holds of a real
    number, and [err] is one whenever the solver lists the eigenvalues
    in increasing order: the square roots are then taken of retained
    eigenvalues, which are positive, and of a sum of squares. *)
Definition decomposition_check (K : MatrixType) : outcome unit :=
  let e := err K (eigenSolver K) in
  if Rgt_dec e 1e-8
  then Thrown (String.append
                 "eigen decomposition not accurate enough. (error: "
                 (String.append (show_double e) ")"))
  else Returned tt.

End Test2.

(** *** A small instance

    One training sample [((0), (3))] under the kernel [1 + x y] without
    noise, evaluated on the two-point grid [0, 5/2]: the posterior
    covariance is [x y], its matrix over the grid is [diag(0, 25/4)]. *)

Definition demo_gp : GaussianProcess := {|
  m_Kernel := fun x y => 1 + x !!! 0%nat * y !!! 0%nat;
  m_Samples := [([0], [3])];
  m_Sigma := 0;
  m_CoreMatrix := [[1]];
  m_Determinant := 1
|}.

Definition demo_mean : VectorType := [3; 3].

Definition demo_K : MatrixType := [[0; 0]; [0; 25 / 4]].

Definition demo_solver : SelfAdjointEigenSolver := {|
  eigenvalues := [0; 25 / 4];
  eigenvectors := [[1; 0]; [0; 1]]
|}.

(** *** An engine over a kernel that is not positive semidefinite

    One training sample [((0), (0))] under the kernel [1 - (x - y)^2]
    without noise: the Gram matrix and the core matrix are [(1)], and
    the posterior self-covariance at [x] is [1 - (1 - x^2)^2], negative
    from [x^2 > 2] on. *)

Definition indefinite_gp : GaussianProcess := {|
  m_Kernel := fun x y =>
    1 - (x !!! 0%nat - y !!! 0%nat) * (x !!! 0%nat - y !!! 0%nat);
  m_Samples := [([0], [0])];
  m_Sigma := 0;
  m_CoreMatrix := [[1]];
  m_Determinant := 1
|}.

End PosteriorProcessTest.

(** ** [PosteriorProcessTest.cpp]: the engines, the failure paths and [main] *)

#[global] Instance R_eq_decision : EqDecision R := Req_dec_T.

Module Driver.
Import PosteriorProcessTest.

(** [VectorType::Ones(n)] and [v * s] for a scalar [s]. *)
Definition Ones (n : nat) : VectorType := Eigen.tabulate n (fun _ => 1).
Definition scale_vec (v : VectorType) (s : R) : VectorType :=
  (fun x => x * s) <$> v.

(** *** Test 1 over engine operations that may throw

    [GaussianProcess.h] is not among the sources: the covariance operator
    of the engine and [GetCredibleInterval] are parameters, and each of
    them may throw or return NaN.  The two operands of the subtraction
    are evaluated in an order C++ leaves open; whichever throws, the
    handler replaces the text. *)

Section Test1.

Variable gp_call : VectorType -> VectorType -> outcome double.
Variable gp_GetCredibleInterval : VectorType -> outcome double.

(** The body of the loop of [Test1]: the [try] block and its handler. *)
Definition Test1_body (x : VectorType) : outcome unit :=
  try_catch_rethrow
    (bind (gp_call x x) (fun v =>
     bind (gp_GetCredibleInterval x) (fun ci =>
       let c := double_sub (double_mul (Num 2) (std_sqrt v)) ci in
       if double_ne c (Num 0) then Thrown "credible interval not correct."
       else Returned tt)))
    "error in calculating credible interval.".

(** The loop of [Test1] over the test points. *)
Definition Test1_checks (number_of_tests : nat) : outcome unit :=
  foldl (fun (acc : outcome unit) i =>
           bind acc (fun _ => Test1_body (Test1_point number_of_tests i)))
        (Returned tt) (seq 0 number_of_tests).

End Test1.

(** *** Test 2 over the operations of the engine

    The landmarks added by [AddSample], in the order of the calls, and
    the grid indices inspected after each draw. *)

Definition Test2_samples : list (VectorType * VectorType) :=
  [ (Ones 1, Eigen.Zero 1);
    (scale_vec (Ones 1) 2, Ones 1);
    (scale_vec (Ones 1) 3, scale_vec (Ones 1) 0.5);
    (scale_vec (Ones 1) 4, Ones 1) ].

Definition landmarks : list nat := [10; 20; 30; 40]%nat.

(** How a run ends: it completes, by returning or by throwing, or one
    of Eigen's assertions fails and the process is aborted. *)
Inductive termination (A : Type) : Type :=
| Completes (o : outcome A)
| Aborts.
Arguments Completes {A} o.
Arguments Aborts {A}.

Section Test2.

(** Whether Eigen's assertions are compiled out ([NDEBUG]); the
    eigensolver; the text [operator<<] prints for a [double]; and the two
    operations of the engine [Test2] calls, [gp->Predict] and the call
    operator of [gp], for an engine whose operations return numbers. *)
Variable NDEBUG : bool.
Variable eigenSolver : MatrixType -> SelfAdjointEigenSolver.
Variable show_double : R -> string.
Variable gp_Predict : VectorType -> VectorType.
Variable gp_call : VectorType -> VectorType -> R.

(** The draw of the sampling loop with the assertion of the
    coefficient-wise product: its operands have the same size, or the
    process is aborted; without the assertion the product has the value
    of [Eigen.cwise_mul].  The other size requirements of the statement
    hold for every solver output of the size of the matrix. *)
Definition checked_draw (number_of_samples : nat) (rot : MatrixType)
  (scl mean : VectorType) (g : variate_generator)
  : option VectorType * variate_generator :=
  let '(z, g') := draw_noise number_of_samples g in
  if NDEBUG || bool_decide (length z = length scl)
  then (Some (sample rot scl z mean), g')
  else (None, g').

(** The loop over the draws: it ends at the first abort or throw. *)
Fixpoint sampling_run (draws number_of_samples : nat) (rot : MatrixType)
  (scl mean : VectorType) (g : variate_generator)
  : termination unit * variate_generator :=
  match draws with
  | O => (Completes (Returned tt), g)
  | S k =>
      match checked_draw number_of_samples rot scl mean g with
      | (None, g') => (Aborts, g')
      | (Some r, g') =>
          match landmarks_check r mean with
          | Returned _ => sampling_run k number_of_samples rot scl mean g'
          | Thrown s => (Completes (Thrown s), g')
          end
      end
  end.

(** [Test2] from the initialized engine on: how it ends, and the state
    of the generator of [GetRandomVector] then. *)
Definition Test2_body (g : variate_generator)
  : termination unit * variate_generator :=
  let number_of_samples := 50%nat in
  let '(mean, K) := kernel_matrix gp_Predict gp_call number_of_samples in
  match decomposition_check eigenSolver show_double K with
  | Thrown s => (Completes (Thrown s), g)
  | Returned _ =>
      sampling_run 10 number_of_samples
        (rot K (eigenSolver K)) (scl (eigenSolver K)) mean g
  end.

End Test2.

(** *** [std::cout] and [main]

    A computation prints pieces of text and returns or throws; the
    line ends and flushes of the stream are left out. *)

Definition io (A : Type) : Type := list string -> outcome A * list string.

Definition print (s : string) : io unit :=
  fun out => (Returned tt, out ++ [s]).

Definition lift {A : Type} (c : outcome A) : io A := fun out => (c, out).

Definition io_bind {A B : Type} (m : io A) (k : A -> io B) : io B :=
  fun out =>
    match m out with
    | (Returned a, out') => k a out'
    | (Thrown s, out') => (Thrown s, out')
    end.

Notation "m >>> k" := (io_bind m (fun _ => k))
  (at level 65, right associativity).

Section Main.

(** The outcomes of the bodies of [Test1] and [Test2]; [Test1_run] and
    [Test2_run] are the two functions with what they print. *)
Variable test1 : outcome unit.
Variable test2 : outcome unit.

Definition Test1_run : io unit :=
  print "Test 1: sinus regression... " >>>
  lift test1 >>>
  print " [passed]".

Definition Test2_run : io unit :=
  print "Test 2: posterior sampling test... " >>>
  lift test2 >>>
  print " [passed]".

(** [main]: the exit code and what was printed. *)
Definition main : Z * list string :=
  match (print "Gaussian process posterior test: " >>>
         Test1_run >>> Test2_run) [] with
  | (Returned _, out) => (0%Z, out)
  | (Thrown s, out) => ((-1)%Z, out ++ [String.append "[failed] Error: " s])
  end.

End Main.

(** *** A decomposition of the zero matrix over the 50-point grid *)

Definition null_solver : SelfAdjointEigenSolver := {|
  eigenvalues := Eigen.Zero 50;
  eigenvectors := Eigen.Identity 50
|}.

(** *** A covariance that vanishes up to the last landmark

    The covariance is 1 between a point beyond the last training input
    and itself, and 0 otherwise: over the 50-point grid its matrix is
    diagonal, with 0 at the indices up to 40 and 1 at the nine indices
    from 41 on.  The decomposition lists the eigenvalues in increasing
    order with the unit vectors as eigenvectors. *)

Definition step_covariance (x y : VectorType) : R :=
  if decide (x = y /\ 4 < x !!! 0%nat) then 1 else 0.

Definition step_K : MatrixType :=
  Eigen.tabulate2 50 50
    (fun a b => if decide (a = b /\ (40 < a)%nat) then 1 else 0).

Definition step_solver : SelfAdjointEigenSolver := {|
  eigenvalues :=
    Eigen.tabulate 50 (fun m => if decide (40 < m)%nat then 1 else 0);
  eigenvectors := Eigen.Identity 50
|}.

End Driver.

(** * Properties *)

(** ** Finite sums *)

Lemma sum_n_ext (n : nat) (f g : nat -> R) :
  (forall k, (k < n)%nat -> f k = g k) -> sum_n n f = sum_n n g.
Proof.
  induction n as [|n IH]; intros H; simpl; [reflexivity|].
  rewrite IH by (intros; apply H; lia).
  rewrite H by lia. reflexivity.
Qed.

Lemma sum_n_zero (n : nat) (f : nat -> R) :
  (forall k, (k < n)%nat -> f k = 0) -> sum_n n f = 0.
Proof.
  induction n as [|n IH]; intros H; simpl; [reflexivity|].
  rewrite IH by (intros; apply H; lia).
  rewrite H by lia. lra.
Qed.

Lemma sum_n_plus (n : nat) (f g : nat -> R) :
  sum_n n (fun k => f k + g k) = sum_n n f + sum_n n g.
Proof. induction n as [|n IH]; simpl; [lra|]. rewrite IH. lra. Qed.

Lemma sum_n_scal (n : nat) (c : R) (f : nat -> R) :
  sum_n n (fun k => c * f k) = c * sum_n n f.
Proof. induction n as [|n IH]; simpl; [lra|]. rewrite IH. lra. Qed.

Lemma sum_n_scal_r (n : nat) (c : R) (f : nat -> R) :
  sum_n n (fun k => f k * c) = sum_n n f * c.
Proof. induction n as [|n IH]; simpl; [lra|]. rewrite IH. lra. Qed.

Lemma sum_n_swap (n m : nat) (f : nat -> nat -> R) :
  sum_n n (fun i => sum_n m (fun j => f i j))
  = sum_n m (fun j => sum_n n (fun i => f i j)).
Proof.
  induction n as [|n IH]; simpl.
  - symmetry. apply sum_n_zero. reflexivity.
  - rewrite IH, <- sum_n_plus. reflexivity.
Qed.

(** A sum against the indicator of one index picks one term. *)
Lemma sum_n_delta (n s : nat) (f : nat -> R) :
  (s < n)%nat ->
  sum_n n (fun k => (if decide (s = k) then 1 else 0) * f k) = f s.
Proof.
  induction n as [|n IH]; intros Hs; [lia|]. simpl.
  destruct (decide (s = n)) as [->|Hne].
  - rewrite sum_n_zero; [lra|].
    intros k Hk. destruct (decide (n = k)); [lia|lra].
  - rewrite IH by lia. lra.
Qed.

Lemma sum_n_delta_r (n s : nat) (f : nat -> R) :
  (s < n)%nat ->
  sum_n n (fun k => f k * (if decide (k = s) then 1 else 0)) = f s.
Proof.
  intros Hs. rewrite <- (sum_n_delta n s f Hs).
  apply sum_n_ext. intros k _.
  destruct (decide (k = s)), (decide (s = k)); try lia; lra.
Qed.

Lemma sum_n_le (n : nat) (f g : nat -> R) :
  (forall k, (k < n)%nat -> f k <= g k) -> sum_n n f <= sum_n n g.
Proof.
  induction n as [|n IH]; intros H; simpl; [lra|].
  specialize (IH ltac:(intros; apply H; lia)).
  specialize (H n ltac:(lia)). lra.
Qed.

Lemma sum_n_const (n : nat) (c : R) : sum_n n (fun _ => c) = INR n * c.
Proof.
  induction n as [|n IH]; [simpl; lra|].
  rewrite S_INR. simpl. rewrite IH. lra.
Qed.

(** Splitting a sum at [a]. *)
Lemma sum_n_app (a b : nat) (f : nat -> R) :
  sum_n (a + b) f = sum_n a f + sum_n b (fun k => f (a + k)%nat).
Proof.
  induction b as [|b IH].
  - rewrite Nat.add_0_r. simpl. lra.
  - rewrite Nat.add_succ_r. simpl. rewrite IH. lra.
Qed.

(** Reading a sum from its last term down. *)
Lemma sum_n_rev (n : nat) (f : nat -> R) :
  sum_n n f = sum_n n (fun k => f (n - 1 - k)%nat).
Proof.
  induction n as [|n IH]; [reflexivity|].
  pose proof (sum_n_app 1 n (fun k => f (S n - 1 - k)%nat)) as Happ.
  change (1 + n)%nat with (S n) in Happ. rewrite Happ.
  cbn [sum_n]. rewrite IH.
  replace (S n - 1 - 0)%nat with n by lia.
  rewrite (sum_n_ext n (fun k => f (S n - 1 - (1 + k))%nat)
                       (fun k => f (n - 1 - k)%nat))
    by (intros; f_equal; lia).
  lra.
Qed.

(** ** Coefficients of the Eigen expressions *)

Section EigenFacts.
Import Eigen.

Lemma length_tabulate (n : nat) (f : nat -> R) : length (tabulate n f) = n.
Proof. unfold tabulate. rewrite length_fmap, length_seq. reflexivity. Qed.

Lemma lookup_tabulate (n : nat) (f : nat -> R) (i : nat) :
  (i < n)%nat -> tabulate n f !!! i = f i.
Proof.
  intros Hi. unfold tabulate.
  rewrite list_lookup_total_alt, list_lookup_fmap, lookup_seq_lt by exact Hi.
  reflexivity.
Qed.

Lemma lookup_tabulate_ge (n : nat) (f : nat -> R) (i : nat) :
  (n <= i)%nat -> tabulate n f !!! i = 0.
Proof.
  intros Hi. rewrite list_lookup_total_alt.
  rewrite lookup_ge_None_2; [reflexivity|].
  rewrite length_tabulate. exact Hi.
Qed.

Lemma rows_tabulate2 (r c : nat) (f : nat -> nat -> R) :
  rows (tabulate2 r c f) = r.
Proof. unfold rows, tabulate2. rewrite length_fmap, length_seq. reflexivity. Qed.

Lemma row_tabulate2 (r c : nat) (f : nat -> nat -> R) (i : nat) :
  (i < r)%nat -> tabulate2 r c f !!! i = tabulate c (f i).
Proof.
  intros Hi. unfold tabulate2.
  rewrite list_lookup_total_alt, list_lookup_fmap, lookup_seq_lt by exact Hi.
  reflexivity.
Qed.

Lemma cols_tabulate2 (r c : nat) (f : nat -> nat -> R) :
  (0 < r)%nat -> cols (tabulate2 r c f) = c.
Proof.
  intros Hr. unfold cols. rewrite row_tabulate2 by exact Hr.
  apply length_tabulate.
Qed.

Lemma coeff_tabulate2 (r c : nat) (f : nat -> nat -> R) (i j : nat) :
  (i < r)%nat -> (j < c)%nat -> coeff (tabulate2 r c f) i j = f i j.
Proof.
  intros Hi Hj. unfold coeff. rewrite row_tabulate2 by exact Hi.
  apply lookup_tabulate. exact Hj.
Qed.

Lemma tabulate_ext (n : nat) (f g : nat -> R) :
  (forall i, (i < n)%nat -> f i = g i) -> tabulate n f = tabulate n g.
Proof.
  intros H. unfold tabulate. apply list_fmap_ext.
  intros i x Hx. apply lookup_seq in Hx as [-> Hlt]. apply H. exact Hlt.
Qed.

End EigenFacts.

(** ** The likelihood *)

Section LikelihoodFacts.
Import Likelihood.

Lemma ln_2PI_pos : 0 < ln (2 * PI).
Proof.
  rewrite <- ln_1. apply ln_increasing; [lra|].
  pose proof PI2_1. lra.
Qed.

(** C1.  On the engine holding the single sample [((0), (0))] with core
    matrix [(1)] and determinant [1], [GaussianLogLikelihood::operator()]
    returns [(0)]: the integer quotient [-1/2] is [0], so the constant
    term vanishes.  The specified value is [-(1/2) log(2 pi)], which is
    negative. *)
Theorem GaussianLogLikelihood_single_sample :
  GaussianLogLikelihood_call single_sample_gp = Returned [0]
  /\ spec_log_likelihood single_sample_gp = [- (1 / 2) * ln (2 * PI)]
  /\ - (1 / 2) * ln (2 * PI) < 0.
Proof.
  split; [|split].
  - unfold GaussianLogLikelihood_call, GetCoreMatrix, ComputeCoreMatrix.
    cbn [single_sample_gp m_Determinant m_CoreMatrix].
    destruct (Rle_dec 1 0) as [Hle|_]; [lra|].
    f_equal. cbn. rewrite ln_1.
    change ((- Z.of_nat 1) `quot` 2)%Z with 0%Z. f_equal. lra.
  - cbn. rewrite ln_1. f_equal. lra.
  - pose proof ln_2PI_pos. lra.
Qed.

(** C2.  [GaussianLogLikelihood::operator()] throws the
    invalid-determinant text exactly when the determinant is at most
    zero, returns a vector exactly when it is positive, and the text is
    not the one of the unimplemented base operator. *)
Theorem GaussianLogLikelihood_invalid_determinant (gp : GaussianProcess) :
  (GaussianLogLikelihood_call gp = Thrown invalid_determinant
   <-> m_Determinant gp <= 0)
  /\ ((exists v, GaussianLogLikelihood_call gp = Returned v)
      <-> m_Determinant gp > 0)
  /\ invalid_determinant <> not_implemented.
Proof.
  unfold GaussianLogLikelihood_call, GetCoreMatrix, ComputeCoreMatrix.
  destruct (Rle_dec (m_Determinant gp) 0) as [Hle|Hgt].
  - split; [|split].
    + split; [intros _; exact Hle | reflexivity].
    + split; [intros [v Hv]; discriminate | intros Hpos; lra].
    + discriminate.
  - split; [|split].
    + split; [discriminate | intros Hle; contradiction].
    + split; [intros _; lra | intros _; eexists; reflexivity].
    + discriminate.
Qed.

(** C9.  A likelihood class that does not override [operator()] throws
    the not-implemented text for every engine, and returns no vector. *)
Theorem Likelihood_call_not_implemented
  (l : NamedLikelihood) (gp : GaussianProcess) :
  call l gp = Thrown not_implemented
  /\ (forall v, call l gp <> Returned v)
  /\ Likelihood_call gp = Thrown not_implemented.
Proof.
  split; [reflexivity|]. split; [|reflexivity].
  intros v. cbn. unfold Likelihood_call. discriminate.
Qed.

Lemma constant_term_even (k : nat) :
  IZR (Z.quot (- Z.of_nat (2 * k)) 2) = - (INR (2 * k) / 2).
Proof.
  rewrite Nat2Z.inj_mul, Z.quot_opp_l by lia.
  rewrite (Z.mul_comm (Z.of_nat 2)), Z.quot_mul by lia.
  rewrite opp_IZR, <- INR_IZR_INZ, mult_INR. cbn. lra.
Qed.

Lemma constant_term_odd (k : nat) :
  IZR (Z.quot (- Z.of_nat (2 * k + 1)) 2) = - (INR (2 * k + 1) / 2) + 1 / 2.
Proof.
  rewrite Nat2Z.inj_add, Nat2Z.inj_mul, Z.quot_opp_l by lia.
  replace (Z.of_nat 2 * Z.of_nat k + Z.of_nat 1)%Z
    with (1 + Z.of_nat k * 2)%Z by lia.
  rewrite Z.quot_add by lia. change (1 ÷ 2)%Z with 0%Z. rewrite Z.add_0_l.
  rewrite opp_IZR, <- INR_IZR_INZ, plus_INR, mult_INR. cbn. lra.
Qed.

(** For a single output dimension, the value returned is the specified
    one shifted by the rounding of [-N/2]. *)
Lemma GaussianLogLikelihood_scalar (gp : GaussianProcess) :
  Eigen.cols (ComputeLabelMatrix gp) = 1%nat ->
  m_Determinant gp > 0 ->
  GaussianLogLikelihood_call gp
  = Returned
      (Eigen.add_scalar (spec_log_likelihood gp)
         ((IZR (Z.quot (- Z.of_nat (Eigen.rows (m_CoreMatrix gp))) 2)
           + INR (length (m_Samples gp)) / 2) * ln (2 * PI))).
Proof.
  intros Hcols Hdet.
  unfold GaussianLogLikelihood_call, GetCoreMatrix, ComputeCoreMatrix,
    GetLabelMatrix, spec_log_likelihood.
  destruct (Rle_dec (m_Determinant gp) 0) as [Hle|_]; [lra|].
  f_equal. rewrite Hcols.
  set (M := Eigen.mul (Eigen.mul _ _) _).
  assert (HMr : Eigen.rows M = 1%nat).
  { unfold M, Eigen.mul. rewrite !rows_tabulate2.
    unfold Eigen.adjoint. rewrite rows_tabulate2. exact Hcols. }
  assert (HMc : Eigen.cols M = 1%nat).
  { unfold M. unfold Eigen.mul at 1. rewrite cols_tabulate2; [exact Hcols|].
    unfold Eigen.mul. rewrite rows_tabulate2.
    unfold Eigen.adjoint. rewrite rows_tabulate2. lia. }
  unfold Eigen.as_vector, Eigen.scale. rewrite rows_tabulate2, HMr, HMc.
  unfold Eigen.tabulate, Eigen.add_scalar. cbn [seq fmap list_fmap].
  rewrite coeff_tabulate2 by lia. f_equal. lra.
Qed.

(** With an even number of samples and a single output dimension the
    value returned is the specified one. *)
Lemma GaussianLogLikelihood_even_scalar (gp : GaussianProcess) (k : nat) :
  Eigen.cols (ComputeLabelMatrix gp) = 1%nat ->
  m_Determinant gp > 0 ->
  Eigen.rows (m_CoreMatrix gp) = length (m_Samples gp) ->
  length (m_Samples gp) = (2 * k)%nat ->
  GaussianLogLikelihood_call gp = Returned (spec_log_likelihood gp).
Proof.
  intros Hcols Hdet Hrows Heven.
  rewrite GaussianLogLikelihood_scalar by assumption.
  rewrite Hrows, Heven, constant_term_even. f_equal.
  unfold Eigen.add_scalar. rewrite <- (list_fmap_id (spec_log_likelihood gp)) at 2.
  apply list_fmap_ext. intros i x _. cbn. lra.
Qed.

(** With an odd number of samples the value returned exceeds the
    specified one by [log(2 pi) / 2] in every entry. *)
Lemma GaussianLogLikelihood_odd_scalar (gp : GaussianProcess) (k : nat) :
  Eigen.cols (ComputeLabelMatrix gp) = 1%nat ->
  m_Determinant gp > 0 ->
  Eigen.rows (m_CoreMatrix gp) = length (m_Samples gp) ->
  length (m_Samples gp) = (2 * k + 1)%nat ->
  GaussianLogLikelihood_call gp
  = Returned (Eigen.add_scalar (spec_log_likelihood gp) (ln (2 * PI) / 2)).
Proof.
  intros Hcols Hdet Hrows Hodd.
  rewrite GaussianLogLikelihood_scalar by assumption.
  rewrite Hrows, Hodd, constant_term_odd. do 2 f_equal. lra.
Qed.

End LikelihoodFacts.

(** ** Test 1: the credible interval *)

Section Test1Facts.
Import PosteriorProcessTest.

Lemma credible_interval_difference_cases (gp : GaussianProcess)
  (x : VectorType) :
  (0 <= Covariance gp x x ->
     GetCredibleInterval gp x = Num (2 * sqrt (Covariance gp x x))
     /\ credible_interval_difference gp x = Num 0
     /\ credible_interval_check gp x = Returned tt)
  /\ (Covariance gp x x < 0 ->
     GetCredibleInterval gp x = NaN
     /\ credible_interval_difference gp x = NaN
     /\ credible_interval_check gp x
        = Thrown "error in calculating credible interval.").
Proof.
  unfold credible_interval_check, credible_interval_difference,
    GetCredibleInterval, std_sqrt.
  split; intros H.
  - destruct (Rlt_dec (Covariance gp x x) 0) as [Hlt|_]; [lra|].
    cbn [double_mul double_sub double_op]. split; [reflexivity|].
    rewrite Rminus_diag. split; [reflexivity|].
    cbn [double_ne]. destruct (Req_dec_T 0 0) as [_|Hne];
      [reflexivity|contradiction].
  - destruct (Rlt_dec (Covariance gp x x) 0) as [_|Hge]; [|lra].
    repeat split.
Qed.

Lemma Covariance_indefinite_gp :
  Covariance indefinite_gp [2] [2] = -8.
Proof.
  unfold Covariance, Eigen.dot, Eigen.vec_mul, ComputeKernelVector,
    SampleVectors. cbn. lra.
Qed.

Lemma indefinite_Initialized : Initialized indefinite_gp.
Proof.
  unfold Initialized, NoisyGramMatrix. cbn.
  split; repeat f_equal; repeat case_decide; try lia; lra.
Qed.



End Test1Facts.

(** ** Test 2: the draw *)

Section DrawFacts.
Import Eigen PosteriorProcessTest.

Lemma lookup_tabulate_Some (n : nat) (f : nat -> R) (i : nat) :
  (i < n)%nat -> tabulate n f !! i = Some (f i).
Proof.
  intros Hi. unfold tabulate.
  rewrite list_lookup_fmap, lookup_seq_lt by exact Hi. reflexivity.
Qed.

Lemma insert_tabulate (n : nat) (f : nat -> R) (k : nat) (x : R) :
  <[k := x]> (tabulate n f)
  = tabulate n (fun i => if decide (i = k) then x else f i).
Proof.
  apply list_eq. intros i.
  destruct (decide (i < n)%nat) as [Hi|Hi].
  - rewrite (lookup_tabulate_Some n _ i Hi).
    destruct (decide (i = k)) as [->|Hne].
    + apply list_lookup_insert_eq. rewrite length_tabulate. exact Hi.
    + rewrite list_lookup_insert_ne by congruence.
      apply lookup_tabulate_Some. exact Hi.
  - rewrite !lookup_ge_None_2; [reflexivity| |].
    + rewrite length_tabulate. lia.
    + rewrite length_insert, length_tabulate. lia.
Qed.

(** [GetRandomVector n] hands back the next [n] deviates of the source
    and leaves the source [n] deviates further. *)
Lemma GetRandomVector_spec (n : nat) (g : variate_generator) :
  GetRandomVector n g
  = (tabulate n (fun i => deviates g (drawn g + i)%nat),
     {| deviates := deviates g; drawn := (drawn g + n)%nat |}).
Proof.
  unfold GetRandomVector.
  assert (H : forall k, (k <= n)%nat ->
    foldl (fun (st : VectorType * variate_generator) i =>
             let '(x, g') := r (snd st) in (<[i := x]> (fst st), g'))
          (Zero n, g) (seq 0 k)
    = (tabulate n (fun i => if decide (i < k)%nat
                            then deviates g (drawn g + i)%nat else 0),
       {| deviates := deviates g; drawn := (drawn g + k)%nat |})).
  { induction k as [|k IH]; intros Hk.
    - cbn [seq foldl]. apply pair_equal_spec. split.
      + apply tabulate_ext. intros i _. destruct (decide (i < 0)%nat); [lia|reflexivity].
      + destruct g as [d p]. cbn. f_equal. lia.
    - rewrite seq_S, foldl_app, IH by lia. cbn [foldl r snd fst deviates drawn].
      rewrite insert_tabulate. apply pair_equal_spec. split.
      + apply tabulate_ext. intros i _. cbn [Nat.add].
        destruct (decide (i = k)) as [->|Hne].
        * destruct (decide (k < S k)%nat); [reflexivity|lia].
        * destruct (decide (i < k)%nat), (decide (i < S k)%nat);
            try lia; reflexivity.
      + f_equal. lia. }
  rewrite H by lia. apply pair_equal_spec. split; [|reflexivity].
  apply tabulate_ext. intros i Hi. destruct (decide (i < n)%nat); [reflexivity|lia].
Qed.

(** C10.  The draw as computed, [rot * (z .* scl) + mean], is the draw of
    the specification, [Q z + mean] with [Q = rot * diag(scl)], for every
    noise vector [z]. *)
Theorem sample_is_Q_z_plus_mean (rot : MatrixType) (scl z mean : VectorType) :
  cols rot = length scl ->
  sample rot scl z mean = spec_sample (mul_diag rot scl) z mean.
Proof.
  intros Hcols. unfold sample, spec_sample. f_equal.
  unfold mul_vec at 1 2. unfold mul_diag at 1. rewrite rows_tabulate2.
  apply tabulate_ext. intros i Hi.
  unfold mul_diag. rewrite cols_tabulate2 by lia. rewrite Hcols.
  apply sum_n_ext. intros k Hk.
  unfold cwise_mul. rewrite lookup_tabulate by exact Hk.
  rewrite coeff_tabulate2 by assumption. lra.
Qed.

End DrawFacts.

(** ** Test 2: the length of the noise vector *)

Section NoiseFacts.
Import Eigen PosteriorProcessTest.

Lemma draw_noise_length (n : nat) (g : variate_generator) :
  length (fst (draw_noise n g)) = n.
Proof.
  unfold draw_noise. rewrite GetRandomVector_spec. cbn [fst].
  apply length_tabulate.
Qed.

Lemma draw_consumes (n : nat) (rot : MatrixType) (scl mean : VectorType)
  (g : variate_generator) :
  drawn (snd (draw n rot scl mean g)) = (drawn g + n)%nat.
Proof.
  unfold draw, draw_noise. rewrite GetRandomVector_spec. reflexivity.
Qed.

Lemma demo_numComponentsToKeep : numComponentsToKeep demo_solver = 1%nat.
Proof.
  unfold numComponentsToKeep, count_positive, demo_solver.
  cbn [eigenvalues fmap list_fmap]. rewrite !filter_cons, filter_nil.
  rewrite decide_False by lra. rewrite decide_True by lra. reflexivity.
Qed.

(** C7.  On the two-point grid whose covariance matrix has the
    eigenvalues [0] and [25/4], one component is retained and [scl] has
    one entry, but every draw requests a noise vector of two entries (the
    number of grid points) from the source and moves the source two
    deviates on. *)
Theorem draw_noise_has_grid_length :
  numComponentsToKeep demo_solver = 1%nat
  /\ length (scl demo_solver) = 1%nat
  /\ forall g : variate_generator,
       length (fst (draw_noise 2 g)) = 2%nat
       /\ drawn (snd (draw 2 (rot demo_K demo_solver) (scl demo_solver)
                            demo_mean g))
          = (drawn g + 2)%nat.
Proof.
  split; [apply demo_numComponentsToKeep|]. split.
  - unfold scl, cwise_sqrt, kept_eigenvalues, topRows.
    rewrite length_fmap, length_take, demo_numComponentsToKeep. reflexivity.
  - intros g. split; [apply draw_noise_length | apply draw_consumes].
Qed.

End NoiseFacts.

(** ** Test 2: filling the kernel matrix *)

Section KernelMatrixFacts.
Import Eigen PosteriorProcessTest.

Lemma shape_row (r c : nat) (m : MatrixType) (i : nat) :
  shape r c m -> (i < r)%nat -> length (m !!! i) = c.
Proof.
  intros [Hr Hc] Hi.
  apply (Forall_lookup_total_1 _ m i Hc). lia.
Qed.

Lemma shape_tabulate2 (r c : nat) (f : nat -> nat -> R) :
  shape r c (tabulate2 r c f).
Proof.
  split; [apply rows_tabulate2|].
  unfold tabulate2. apply Forall_fmap, Forall_forall.
  intros i _. apply length_tabulate.
Qed.

(** A matrix is the table of its coefficients. *)
Lemma shape_eq_tabulate2 (r c : nat) (m : MatrixType) :
  shape r c m -> m = tabulate2 r c (coeff m).
Proof.
  intros Hm. pose proof Hm as [Hr Hc].
  apply list_eq_same_length with r; [apply rows_tabulate2|exact Hr|].
  intros i x y Hi Hx Hy.
  assert (Hxi : x = m !!! i) by (symmetry; apply list_lookup_total_correct, Hx).
  assert (Hyi : y = tabulate2 r c (coeff m) !!! i)
    by (symmetry; apply list_lookup_total_correct, Hy).
  rewrite Hyi, row_tabulate2 by exact Hi.
  assert (Hlen : length x = c) by (rewrite Hxi; apply shape_row with r; assumption).
  apply list_eq_same_length with c; [apply length_tabulate|exact Hlen|].
  intros j u v Hj Hu Hv.
  rewrite lookup_tabulate_Some in Hv by exact Hj.
  injection Hv as <-. unfold coeff. rewrite <- Hxi.
  symmetry. apply list_lookup_total_correct, Hu.
Qed.

Lemma shape_ext (r c : nat) (m1 m2 : MatrixType) :
  shape r c m1 -> shape r c m2 ->
  (forall i j, (i < r)%nat -> (j < c)%nat -> coeff m1 i j = coeff m2 i j) ->
  m1 = m2.
Proof.
  intros H1 H2 H.
  rewrite (shape_eq_tabulate2 r c m1 H1), (shape_eq_tabulate2 r c m2 H2).
  unfold tabulate2. apply list_fmap_ext. intros k i Hk.
  apply lookup_seq in Hk as [-> Hi].
  apply tabulate_ext. intros j Hj. apply H; assumption.
Qed.

Lemma shape_set_coeff (r c : nat) (m : MatrixType) (i j : nat) (x : R) :
  shape r c m -> (i < r)%nat -> shape r c (set_coeff m i j x).
Proof.
  intros Hm Hi. pose proof Hm as [Hr Hc]. unfold set_coeff. split.
  - rewrite length_insert. exact Hr.
  - apply Forall_insert; [exact Hc|].
    rewrite length_insert. apply shape_row with r; assumption.
Qed.

Lemma coeff_set_coeff (r c : nat) (m : MatrixType) (i j : nat) (x : R)
  (a b : nat) :
  shape r c m -> (i < r)%nat -> (j < c)%nat ->
  coeff (set_coeff m i j x) a b
  = if decide (a = i /\ b = j) then x else coeff m a b.
Proof.
  intros Hm Hi Hj. pose proof Hm as [Hr Hc]. unfold coeff, set_coeff.
  destruct (decide (a = i)) as [->|Ha].
  - rewrite list_lookup_total_insert_eq by lia.
    destruct (decide (b = j)) as [->|Hb].
    + rewrite list_lookup_total_insert_eq
        by (rewrite (shape_row r c m i Hm Hi); exact Hj).
      rewrite decide_True by (split; reflexivity). reflexivity.
    + rewrite list_lookup_total_insert_ne by congruence.
      rewrite decide_False by (intros [_ ?]; contradiction). reflexivity.
  - rewrite list_lookup_total_insert_ne by congruence.
    rewrite decide_False by (intros [? _]; contradiction). reflexivity.
Qed.

(** A write leaves every other cell alone, whatever the shape. *)
Lemma coeff_set_coeff_other (m : MatrixType) (i j : nat) (x : R) (a b : nat) :
  (a, b) <> (i, j) -> coeff (set_coeff m i j x) a b = coeff m a b.
Proof.
  intros Hne. unfold coeff, set_coeff.
  destruct (decide (a = i)) as [->|Ha].
  - destruct (decide (i < length m)%nat) as [Hi|Hi].
    + rewrite list_lookup_total_insert_eq by exact Hi.
      rewrite list_lookup_total_insert_ne by congruence. reflexivity.
    + rewrite list_insert_ge by lia. reflexivity.
  - rewrite list_lookup_total_insert_ne by congruence. reflexivity.
Qed.

Lemma vector_ext (n : nat) (u v : VectorType) :
  length u = n -> length v = n ->
  (forall i, (i < n)%nat -> u !!! i = v !!! i) -> u = v.
Proof.
  intros Hu Hv H.
  apply list_eq_same_length with n; [exact Hv|exact Hu|].
  intros i x y Hi Hx Hy.
  apply list_lookup_total_correct in Hx, Hy. rewrite <- Hx, <- Hy.
  apply H. exact Hi.
Qed.

Variable gp_Predict : VectorType -> VectorType.
Variable gp_call : VectorType -> VectorType -> R.
Variable n : nat.

Let cov (i j : nat) : R := gp_call (grid_point n i) (grid_point n j).
Let mu (i : nat) : R := gp_Predict (grid_point n i) !!! 0%nat.

Lemma inner_body_shape (i j : nat) (K : MatrixType) :
  shape n n K -> (i < n)%nat -> (j < n)%nat ->
  shape n n (inner_body gp_call n i K j).
Proof.
  intros HK Hi Hj. unfold inner_body. cbn zeta.
  apply shape_set_coeff; [|exact Hj].
  apply shape_set_coeff; assumption.
Qed.

Lemma inner_body_coeff (i j : nat) (K : MatrixType) (a b : nat) :
  shape n n K -> (i < n)%nat -> (j < n)%nat ->
  coeff (inner_body gp_call n i K j) a b
  = if decide ((a = i /\ b = j) \/ (a = j /\ b = i)) then cov i j
    else coeff K a b.
Proof.
  intros HK Hi Hj. unfold inner_body. cbn zeta.
  pose proof (shape_set_coeff n n K i j (cov i j) HK Hi) as HK1.
  fold (cov i j).
  rewrite (coeff_set_coeff n n _ j i _ a b HK1 Hj Hi).
  rewrite !(coeff_set_coeff n n K i j _ _ _ HK Hi Hj).
  rewrite (decide_True (P := i = i /\ j = j)) by (split; reflexivity).
  destruct (decide (a = j /\ b = i)) as [[-> ->]|H1].
  - rewrite decide_True by (right; split; reflexivity). reflexivity.
  - destruct (decide (a = i /\ b = j)) as [[-> ->]|H2].
    + rewrite decide_True by (left; split; reflexivity). reflexivity.
    + rewrite decide_False by (intros [?|?]; contradiction). reflexivity.
Qed.

Lemma inner_loop_spec (i m : nat) (K : MatrixType) :
  shape n n K -> (i + m <= n)%nat -> (i < n)%nat ->
  shape n n (foldl (inner_body gp_call n i) K (seq i m))
  /\ forall a b,
       coeff (foldl (inner_body gp_call n i) K (seq i m)) a b
       = if decide ((a = i /\ i <= b < i + m) \/ (b = i /\ i <= a < i + m))%nat
         then cov i (Nat.max a b)
         else coeff K a b.
Proof.
  intros HK Hm Hi. induction m as [|m IH].
  - cbn [seq foldl]. split; [exact HK|]. intros a b.
    rewrite decide_False by lia. reflexivity.
  - destruct IH as [Hsh Hco]; [lia|].
    rewrite seq_S, foldl_app. cbn [foldl]. split.
    + apply inner_body_shape; [exact Hsh|exact Hi|lia].
    + intros a b. rewrite inner_body_coeff by (try assumption; lia).
      rewrite Hco.
      destruct (decide ((a = i /\ b = (i + m)%nat) \/ (a = (i + m)%nat /\ b = i)))
        as [H|H].
      * rewrite decide_True by lia.
        f_equal. destruct H as [[-> ->]|[-> ->]]; unfold cov; f_equal; f_equal; lia.
      * destruct (decide ((a = i /\ (i <= b < i + m)%nat)
                          \/ (b = i /\ (i <= a < i + m)%nat))) as [H'|H'].
        -- rewrite decide_True by lia. reflexivity.
        -- rewrite decide_False by lia. reflexivity.
Qed.

Lemma outer_body_spec (mean : VectorType) (K : MatrixType) (i : nat) :
  length mean = n -> shape n n K -> (i < n)%nat ->
  let st := outer_body gp_Predict gp_call n (mean, K) i in
  length (fst st) = n
  /\ shape n n (snd st)
  /\ (forall k, (k < n)%nat ->
        fst st !!! k = if decide (k = i) then mu i else mean !!! k)
  /\ (forall a b, (a < n)%nat -> (b < n)%nat ->
        coeff (snd st) a b
        = if decide (Nat.min a b = i) then cov i (Nat.max a b)
          else coeff K a b).
Proof.
  intros Hmean HK Hi. cbn zeta. unfold outer_body. cbn [fst snd].
  destruct (inner_loop_spec i (n - i) K HK ltac:(lia) Hi) as [Hsh Hco].
  split; [rewrite length_insert; exact Hmean|].
  split; [exact Hsh|]. split.
  - intros k Hk. destruct (decide (k = i)) as [->|Hne].
    + apply list_lookup_total_insert_eq. lia.
    + apply list_lookup_total_insert_ne. congruence.
  - intros a b Ha Hb. rewrite Hco.
    destruct (decide (Nat.min a b = i)) as [H|H].
    + rewrite decide_True by lia. reflexivity.
    + rewrite decide_False by lia. reflexivity.
Qed.

(** The state after running the outer loop over any list of
    iterations. *)
Lemma outer_loop_spec (order : list nat) :
  Forall (fun i => (i < n)%nat) order ->
  forall (mean : VectorType) (K : MatrixType),
  length mean = n -> shape n n K ->
  let st := foldl (outer_body gp_Predict gp_call n) (mean, K) order in
  length (fst st) = n
  /\ shape n n (snd st)
  /\ (forall k, (k < n)%nat ->
        fst st !!! k = if decide (k ∈ order) then mu k else mean !!! k)
  /\ (forall a b, (a < n)%nat -> (b < n)%nat ->
        coeff (snd st) a b
        = if decide (Nat.min a b ∈ order)
          then cov (Nat.min a b) (Nat.max a b)
          else coeff K a b).
Proof.
  induction 1 as [|i order Hi Horder IH]; intros mean K Hmean HK; cbn zeta.
  - cbn [foldl fst snd]. split; [exact Hmean|]. split; [exact HK|]. split.
    + intros k _. rewrite decide_False by apply not_elem_of_nil. reflexivity.
    + intros a b _ _. rewrite decide_False by apply not_elem_of_nil. reflexivity.
  - cbn [foldl].
    destruct (outer_body_spec mean K i Hmean HK Hi) as (Hl & Hsh & Hm & Hc).
    destruct (outer_body gp_Predict gp_call n (mean, K) i) as [mean1 K1] eqn:E.
    cbn [fst snd] in Hl, Hsh, Hm, Hc.
    destruct (IH mean1 K1 Hl Hsh) as (Hl' & Hsh' & Hm' & Hc').
    split; [exact Hl'|]. split; [exact Hsh'|]. split.
    + intros k Hk. rewrite Hm' by exact Hk. rewrite Hm by exact Hk.
      destruct (decide (k ∈ order)) as [Hin|Hin].
      * rewrite decide_True by (apply elem_of_cons; right; exact Hin). reflexivity.
      * destruct (decide (k = i)) as [->|Hne].
        -- rewrite decide_True by (apply elem_of_cons; left; reflexivity). reflexivity.
        -- rewrite decide_False; [reflexivity|].
           intros [?|?]%elem_of_cons; contradiction.
    + intros a b Ha Hb. rewrite Hc' by assumption. rewrite Hc by assumption.
      destruct (decide (Nat.min a b ∈ order)) as [Hin|Hin].
      * rewrite decide_True by (apply elem_of_cons; right; exact Hin). reflexivity.
      * destruct (decide (Nat.min a b = i)) as [Heq|Hne].
        -- rewrite decide_True by (apply elem_of_cons; left; exact Heq).
           rewrite Heq. reflexivity.
        -- rewrite decide_False; [reflexivity|].
           intros [?|?]%elem_of_cons; contradiction.
Qed.

(** The loop as written computes the table of covariances, mirrored
    from the upper triangle, and the vector of predicted means; so does
    the loop run over its iterations in any other order. *)
Lemma kernel_matrix_in_order_spec (order : list nat) :
  Forall (fun i => (i < n)%nat) order ->
  (forall i, (i < n)%nat -> i ∈ order) ->
  kernel_matrix_in_order gp_Predict gp_call n order
  = (tabulate n mu,
     tabulate2 n n (fun a b => cov (Nat.min a b) (Nat.max a b))).
Proof.
  intros Hlt Hall. unfold kernel_matrix_in_order.
  destruct (outer_loop_spec order Hlt (Zero n) (Zero2 n n)
              (length_tabulate n _) (shape_tabulate2 n n _))
    as (Hl & Hsh & Hm & Hc).
  destruct (foldl _ _ order) as [mean K]. cbn [fst snd] in *.
  apply pair_equal_spec. split.
  - apply vector_ext with n; [exact Hl|apply length_tabulate|].
    intros i Hi. rewrite Hm by exact Hi.
    rewrite decide_True by (apply Hall; exact Hi).
    rewrite lookup_tabulate by exact Hi. reflexivity.
  - apply shape_ext with n n; [exact Hsh|apply shape_tabulate2|].
    intros a b Ha Hb. rewrite Hc by assumption.
    rewrite decide_True by (apply Hall; lia).
    rewrite coeff_tabulate2 by assumption. reflexivity.
Qed.

Lemma kernel_matrix_spec :
  kernel_matrix gp_Predict gp_call n
  = (tabulate n mu,
     tabulate2 n n (fun a b => cov (Nat.min a b) (Nat.max a b))).
Proof.
  unfold kernel_matrix. apply kernel_matrix_in_order_spec.
  - apply Forall_forall. intros i Hi%elem_of_seq. lia.
  - intros i Hi. apply elem_of_seq. lia.
Qed.

Lemma inner_loop_frame (i a b : nat) (l : list nat) (K : MatrixType) :
  (forall j, In j l -> (a, b) <> (i, j) /\ (a, b) <> (j, i)) ->
  coeff (foldl (inner_body gp_call n i) K l) a b = coeff K a b.
Proof.
  revert K. induction l as [|j l IH]; intros K H; [reflexivity|].
  cbn [foldl]. rewrite IH by (intros j' Hj'; apply H; right; exact Hj').
  destruct (H j (or_introl eq_refl)) as [H1 H2].
  unfold inner_body. cbn zeta.
  rewrite !coeff_set_coeff_other by assumption. reflexivity.
Qed.

Lemma cells_written_iff (i a b : nat) :
  (i < n)%nat -> (a < n)%nat -> (b < n)%nat ->
  In (a, b) (cells_written n i) <-> i = Nat.min a b.
Proof.
  intros Hi Ha Hb. unfold cells_written. rewrite in_flat_map. split.
  - intros (j & Hj & Hin). apply in_seq in Hj.
    destruct Hin as [E|[E|[]]]; injection E as <- <-; lia.
  - intros ->. exists (Nat.max a b). split; [apply in_seq; lia|].
    destruct (Nat.le_ge_cases a b) as [Hab|Hab].
    + left. f_equal; lia.
    + right. left. f_equal; lia.
Qed.

(** C8.  Running the outer loop over any permutation of its iterations
    produces the matrix and the mean vector of the loop as written,
    which hold the covariance of the grid points [min a b] and [max a b]
    in cell [(a, b)] and the predicted mean in entry [k]; the matrix is
    symmetric.  Among the iterations, exactly iteration [min a b]
    assigns cell [(a, b)]: from any state, iteration [i] stores the
    covariance in each cell of [cells_written i], whatever the cell
    held, stores the mean in entry [i], and leaves every other cell and
    entry as it was. *)
Theorem kernel_matrix_order_independent :
  (forall order, order ≡ₚ seq 0 n ->
     kernel_matrix_in_order gp_Predict gp_call n order
     = kernel_matrix gp_Predict gp_call n)
  /\ kernel_matrix gp_Predict gp_call n
     = (tabulate n (fun k => gp_Predict (grid_point n k) !!! 0%nat),
        tabulate2 n n (fun a b =>
          gp_call (grid_point n (Nat.min a b)) (grid_point n (Nat.max a b))))
  /\ (forall a b, (a < n)%nat -> (b < n)%nat ->
        coeff (snd (kernel_matrix gp_Predict gp_call n)) a b
        = coeff (snd (kernel_matrix gp_Predict gp_call n)) b a)
  /\ (forall i a b, (i < n)%nat -> (a < n)%nat -> (b < n)%nat ->
        In (a, b) (cells_written n i) <-> i = Nat.min a b)
  /\ (forall mean K i a b,
        shape n n K -> (i < n)%nat -> (a < n)%nat -> (b < n)%nat ->
        In (a, b) (cells_written n i) ->
        coeff (snd (outer_body gp_Predict gp_call n (mean, K) i)) a b
        = gp_call (grid_point n (Nat.min a b)) (grid_point n (Nat.max a b)))
  /\ (forall st i a b, ~ In (a, b) (cells_written n i) ->
        coeff (snd (outer_body gp_Predict gp_call n st i)) a b
        = coeff (snd st) a b)
  /\ (forall mean K i k, length mean = n -> (i < n)%nat ->
        fst (outer_body gp_Predict gp_call n (mean, K) i) !!! k
        = if decide (k = i) then gp_Predict (grid_point n i) !!! 0%nat
          else mean !!! k).
Proof.
  split; [|split; [|split; [|split; [|split; [|split]]]]].
  - intros order Hperm. rewrite kernel_matrix_spec.
    apply kernel_matrix_in_order_spec.
    + apply Forall_forall. intros i Hi. rewrite Hperm in Hi.
      apply elem_of_seq in Hi. lia.
    + intros i Hi. rewrite Hperm. apply elem_of_seq. lia.
  - apply kernel_matrix_spec.
  - intros a b Ha Hb. rewrite kernel_matrix_spec. cbn [snd].
    rewrite !coeff_tabulate2 by assumption.
    rewrite (Nat.min_comm b a), (Nat.max_comm b a). reflexivity.
  - apply cells_written_iff.
  - intros mean K i a b HK Hi Ha Hb Hin.
    apply cells_written_iff in Hin; try assumption.
    unfold outer_body. cbn [fst snd].
    destruct (inner_loop_spec i (n - i) K HK ltac:(lia) Hi) as [_ Hco].
    rewrite Hco, decide_True by lia. subst i. reflexivity.
  - intros st i a b Hnot. unfold outer_body. cbn [snd].
    apply inner_loop_frame. intros j Hj.
    split; intros E; apply Hnot; unfold cells_written;
      apply in_flat_map; exists j; (split; [exact Hj|]); rewrite E.
    + left. reflexivity.
    + right. left. reflexivity.
  - intros mean K i k Hmean Hi. unfold outer_body. cbn [fst].
    destruct (decide (k = i)) as [->|Hne].
    + apply list_lookup_total_insert_eq. lia.
    + apply list_lookup_total_insert_ne. congruence.
Qed.

End KernelMatrixFacts.

Lemma kernel_matrix_order_independent_witness :
  PosteriorProcessTest.kernel_matrix_in_order
    (Predict PosteriorProcessTest.demo_gp)
    (Covariance PosteriorProcessTest.demo_gp) 2 [1; 0]%nat
  = PosteriorProcessTest.kernel_matrix
      (Predict PosteriorProcessTest.demo_gp)
      (Covariance PosteriorProcessTest.demo_gp) 2.
Proof.
  apply (proj1 (kernel_matrix_order_independent
                  (Predict PosteriorProcessTest.demo_gp)
                  (Covariance PosteriorProcessTest.demo_gp) 2)).
  apply Permutation_swap.
Defined.

(** ** Test 2: the truncation of the decomposition *)

Section TruncationFacts.
Import Eigen PosteriorProcessTest.

Context {A : Type} (key : A -> R).

Lemma filter_key_fmap (l : list A) :
  filter (fun x => x > 1e-10) (key <$> l)
  = key <$> filter (fun p => key p > 1e-10) l.
Proof.
  induction l as [|a l IH]; [reflexivity|].
  rewrite fmap_cons, !filter_cons, IH.
  destruct (decide (key a > 1e-10)); reflexivity.
Qed.

Lemma filter_none (l : list A) :
  Forall (fun p => key p <= 1e-10) l ->
  filter (fun p => key p > 1e-10) l = [].
Proof.
  induction 1 as [|a l Ha Hl IH]; [reflexivity|].
  rewrite filter_cons, IH. rewrite decide_False by lra. reflexivity.
Qed.

(** In a list sorted from the largest key down, the entries above the
    threshold are a prefix. *)
Lemma filter_descending_prefix (l : list A) :
  StronglySorted (fun p q => key q <= key p) l ->
  filter (fun p => key p > 1e-10) l
  = take (length (filter (fun p => key p > 1e-10) l)) l.
Proof.
  induction 1 as [|a l Hl IH Ha]; [reflexivity|].
  rewrite filter_cons. destruct (decide (key a > 1e-10)) as [Hgt|Hle].
  - cbn [length take]. f_equal. exact IH.
  - rewrite filter_none; [reflexivity|].
    apply Rnot_gt_le in Hle.
    eapply Forall_impl; [exact Ha|]. intros q Hq. cbv beta in Hq. lra.
Qed.

Lemma reverse_descending (l : list A) :
  StronglySorted (fun p q => key p <= key q) l ->
  StronglySorted (fun p q => key q <= key p) (reverse l).
Proof.
  induction 1 as [|a l Hl IH Ha]; [constructor|].
  rewrite reverse_cons. apply StronglySorted_app. split; [|split].
  - intros x1 x2 H1 H2. apply list_elem_of_singleton in H2 as ->.
    rewrite elem_of_reverse in H1.
    rewrite Forall_forall in Ha. apply Ha. exact H1.
  - exact IH.
  - repeat constructor.
Qed.

Lemma take_descending (m : nat) (l : list A) :
  StronglySorted (fun p q => key q <= key p) l ->
  StronglySorted (fun p q => key q <= key p) (take m l).
Proof.
  intros H. revert m. induction H as [|a l Hl IH Ha]; intros [|m];
    cbn [take]; try constructor.
  - apply IH.
  - apply Forall_take. exact Ha.
Qed.

End TruncationFacts.

Section ThresholdFacts.

Context {A : Type} (key : A -> R).

(** In a list sorted from the largest key down, what follows the entries
    above the threshold is at most the threshold. *)
Lemma drop_descending_le (l : list A) :
  StronglySorted (fun p q => key q <= key p) l ->
  Forall (fun p => key p <= 1e-10)
         (drop (length (filter (fun p => key p > 1e-10) l)) l).
Proof.
  induction 1 as [|a l Hl IH Ha]; [constructor|].
  rewrite filter_cons. destruct (decide (key a > 1e-10)) as [Hgt|Hle].
  - cbn [length drop]. exact IH.
  - apply Rnot_gt_le in Hle.
    rewrite filter_none.
    + cbn [length drop]. constructor; [exact Hle|].
      eapply Forall_impl; [exact Ha|]. intros q Hq. cbv beta in Hq. lra.
    + eapply Forall_impl; [exact Ha|]. intros q Hq. cbv beta in Hq. lra.
Qed.

Lemma take_descending_gt (l : list A) :
  StronglySorted (fun p q => key q <= key p) l ->
  Forall (fun p => key p > 1e-10)
         (take (length (filter (fun p => key p > 1e-10) l)) l).
Proof.
  intros H. rewrite <- filter_descending_prefix by exact H.
  apply Forall_forall. intros p Hp.
  apply list_elem_of_filter in Hp as [Hp _]. exact Hp.
Qed.

End ThresholdFacts.

Section TruncationTheorem.
Import Eigen PosteriorProcessTest.

Lemma numComponentsToKeep_count (es : SelfAdjointEigenSolver) :
  numComponentsToKeep es
  = length (filter (fun l => l > 1e-10) (eigenvalues es)).
Proof.
  unfold numComponentsToKeep, count_positive.
  induction (eigenvalues es) as [|a l IH]; [reflexivity|].
  rewrite fmap_cons, !filter_cons.
  destruct (decide (a - 1e-10 > 0)) as [H|H], (decide (a > 1e-10)) as [H'|H'];
    cbn [length]; try rewrite IH; try reflexivity; exfalso; lra.
Qed.

Lemma numComponentsToKeep_le (es : SelfAdjointEigenSolver) :
  (numComponentsToKeep es <= length (eigenvalues es))%nat.
Proof. rewrite numComponentsToKeep_count. apply length_filter. Qed.

Lemma zip_ascending {B : Type} (l : VectorType) (k : list B) :
  StronglySorted Rle l ->
  StronglySorted (fun p q : R * B => fst p <= fst q) (zip l k).
Proof.
  intros H. revert k. induction H as [|a l Hl IH Ha]; intros [|b k];
    cbn [zip zip_with]; try constructor.
  - apply IH.
  - apply Forall_forall. intros [x y] Hxy. cbn [fst].
    apply elem_of_zip_l in Hxy. rewrite Forall_forall in Ha. apply Ha, Hxy.
Qed.

Lemma reverse_zip {B C : Type} (l : list B) (k : list C) :
  length l = length k -> reverse (zip l k) = zip (reverse l) (reverse k).
Proof.
  revert k. induction l as [|x l IH]; intros [|y k] Hlen;
    try discriminate; [reflexivity|].
  cbn [zip zip_with]. rewrite !reverse_cons.
  rewrite (zip_with_app pair (reverse l) [x] (reverse k) [y])
    by (rewrite !length_reverse; cbn in Hlen; lia).
  rewrite <- IH by (cbn in Hlen; lia). reflexivity.
Qed.

Lemma reverse_seq (m : nat) :
  reverse (seq 0 m) = (fun k => m - 1 - k)%nat <$> seq 0 m.
Proof.
  induction m as [|m IH]; [reflexivity|].
  rewrite seq_S at 1. rewrite reverse_app, reverse_singleton. cbn [app].
  rewrite IH. cbn [seq fmap list_fmap]. f_equal; [lia|].
  rewrite <- fmap_S_seq, <- list_fmap_compose.
  apply list_fmap_ext. intros i k _. cbn. lia.
Qed.

Lemma lookup_total_reverse (row : VectorType) (k : nat) :
  (k < length row)%nat -> reverse row !!! k = row !!! (length row - 1 - k)%nat.
Proof.
  intros Hk. rewrite !list_lookup_total_alt, reverse_lookup by exact Hk.
  do 2 f_equal. lia.
Qed.

(** The columns of [rot] are the last [numComponentsToKeep] columns of
    the eigenvectors, from the last one down. *)
Lemma colwise_rot (n : nat) (K : MatrixType) (es : SelfAdjointEigenSolver) :
  square_solver n es -> rows K = n ->
  colwise (rot K es)
  = take (numComponentsToKeep es) (reverse (colwise (eigenvectors es))).
Proof.
  intros (Hev & Hrows & Hcols) HK.
  pose proof (numComponentsToKeep_le es) as Hle. rewrite Hev in Hle.
  set (c := numComponentsToKeep es) in *.
  assert (Hrot : rot K es = (fun row => take c (reverse row)) <$> eigenvectors es).
  { unfold rot, topLeftCorner, rowwise_reverse. fold c.
    rewrite take_ge by (rewrite length_fmap; unfold rows in *; lia).
    rewrite <- list_fmap_compose. reflexivity. }
  destruct (decide (n = 0%nat)) as [->|Hn].
  - assert (c = 0%nat) as -> by lia.
    destruct (eigenvectors es); [|discriminate]. rewrite Hrot. reflexivity.
  - assert (Hc0 : cols (eigenvectors es) = n).
    { unfold cols. apply (Forall_lookup_total_1 _ _ 0%nat Hcols). lia. }
    assert (Hc1 : cols (rot K es) = c).
    { unfold cols. rewrite Hrot.
      rewrite (list_lookup_total_fmap (fun row : VectorType => take c (reverse row))
                 (eigenvectors es) 0%nat) by lia.
      rewrite length_take, length_reverse. fold (cols (eigenvectors es)). lia. }
    unfold colwise. rewrite Hc0, Hc1.
    rewrite <- fmap_reverse, <- fmap_take, reverse_seq, <- fmap_take.
    rewrite take_seq, Nat.min_l by lia. rewrite <- list_fmap_compose.
    apply list_fmap_ext. intros i k Hk. apply lookup_seq in Hk as [-> Hk].
    cbn. unfold col. rewrite Hrot, <- list_fmap_compose.
    apply Forall_fmap_ext_1. eapply Forall_impl; [exact Hcols|].
    intros row Hrow. cbn. cbv beta in Hrow.
    rewrite lookup_total_take_lt by exact Hk.
    rewrite lookup_total_reverse by lia. rewrite Hrow. reflexivity.
Qed.

(** C5.  When the solver lists the eigenvalues in increasing order, the
    truncation keeps exactly the eigenpairs whose eigenvalue exceeds
    [1e-10]: the kept pairs are the pairs above the threshold, read from
    the largest eigenvalue down, and the kept eigenvalues are in
    descending order.  Nothing else is kept: [rot] has one column per
    kept pair and no other column, [scl] one entry per kept pair, and
    the eigenpairs left out all have an eigenvalue of at most
    [1e-10]. *)
Theorem truncation_keeps_significant_eigenpairs
  (n : nat) (K : MatrixType) (es : SelfAdjointEigenSolver) :
  square_solver n es -> rows K = n ->
  Sorted Rle (eigenvalues es) ->
  kept_eigenpairs K es
  = filter (fun p => fst p > 1e-10) (reverse (eigenpairs es))
  /\ kept_eigenvalues es
     = filter (fun l => l > 1e-10) (reverse (eigenvalues es))
  /\ StronglySorted (fun a b => b <= a) (kept_eigenvalues es)
  /\ shape n (length (kept_eigenpairs K es)) (rot K es)
  /\ colwise (rot K es) = snd <$> kept_eigenpairs K es
  /\ kept_eigenvalues es = fst <$> kept_eigenpairs K es
  /\ length (scl es) = length (kept_eigenpairs K es)
  /\ exists discarded,
       reverse (eigenpairs es) = kept_eigenpairs K es ++ discarded
       /\ Forall (fun p => fst p <= 1e-10) discarded.
Proof.
  intros Hsq HK Hsorted. pose proof Hsq as (Hev & Hrows & Hcols).
  assert (Hss : StronglySorted Rle (eigenvalues es)).
  { apply Sorted_StronglySorted; [|exact Hsorted].
    intros x y z. apply Rle_trans. }
  assert (Hlen : length (eigenvalues es) = length (colwise (eigenvectors es))).
  { unfold colwise. rewrite length_fmap, length_seq, Hev.
    destruct (decide (n = 0%nat)) as [->|Hn].
    - destruct (eigenvectors es); [reflexivity|discriminate].
    - unfold cols. symmetry.
      apply (Forall_lookup_total_1 _ _ 0%nat Hcols). lia. }
  assert (Hvals : kept_eigenvalues es
                  = filter (fun l => l > 1e-10) (reverse (eigenvalues es))).
  { unfold kept_eigenvalues, topRows.
    rewrite (filter_descending_prefix (fun x => x))
      by (apply (reverse_descending (fun x => x)); exact Hss).
    rewrite filter_reverse, length_reverse, <- numComponentsToKeep_count.
    reflexivity. }
  assert (Hdesc : StronglySorted
                    (fun p q : R * VectorType => fst q <= fst p)
                    (reverse (eigenpairs es)))
    by (apply (reverse_descending fst), zip_ascending; exact Hss).
  assert (Hcount : length (filter (fun p : R * VectorType => fst p > 1e-10)
                             (reverse (eigenpairs es)))
                   = numComponentsToKeep es).
  { rewrite filter_reverse, length_reverse. unfold eigenpairs.
    rewrite numComponentsToKeep_count.
    rewrite <- (fst_zip (eigenvalues es) (colwise (eigenvectors es))) at 2
      by lia.
    rewrite (filter_key_fmap fst), length_fmap. reflexivity. }
  assert (Hpairs : kept_eigenpairs K es
                   = filter (fun p => fst p > 1e-10) (reverse (eigenpairs es))).
  { rewrite (filter_descending_prefix fst) by exact Hdesc.
    rewrite Hcount. unfold kept_eigenpairs, eigenpairs.
    rewrite reverse_zip by exact Hlen.
    rewrite zip_with_take. fold (kept_eigenvalues es).
    rewrite (colwise_rot n) by assumption. reflexivity. }
  assert (Hkept : length (kept_eigenpairs K es) = numComponentsToKeep es)
    by (rewrite Hpairs; exact Hcount).
  pose proof (numComponentsToKeep_le es) as Hle. rewrite Hev in Hle.
  assert (Hrot : rot K es
                 = (fun row => take (numComponentsToKeep es) (reverse row))
                     <$> eigenvectors es).
  { unfold rot, topLeftCorner, rowwise_reverse.
    rewrite take_ge by (rewrite length_fmap; unfold rows in *; lia).
    rewrite <- list_fmap_compose. reflexivity. }
  assert (Hshape : shape n (numComponentsToKeep es) (rot K es)).
  { rewrite Hrot. split; [rewrite length_fmap; exact Hrows|].
    apply Forall_fmap. eapply Forall_impl; [exact Hcols|].
    intros row Hrow. cbn. cbv beta in Hrow.
    rewrite length_take, length_reverse. lia. }
  assert (Hlenk : length (kept_eigenvalues es) = numComponentsToKeep es).
  { unfold kept_eigenvalues, topRows.
    rewrite length_take, length_reverse. lia. }
  assert (Hlenc : length (colwise (rot K es)) = numComponentsToKeep es).
  { rewrite (colwise_rot n) by assumption.
    rewrite length_take, length_reverse, <- Hlen. lia. }
  split; [exact Hpairs|]. split; [exact Hvals|]. split.
  { unfold kept_eigenvalues, topRows.
    apply (take_descending (fun x => x)), (reverse_descending (fun x => x)).
    exact Hss. }
  split; [rewrite Hkept; exact Hshape|]. split.
  { unfold kept_eigenpairs. symmetry. apply snd_zip. lia. }
  split.
  { unfold kept_eigenpairs. symmetry. apply fst_zip. lia. }
  split.
  { unfold scl, cwise_sqrt. rewrite length_fmap, Hlenk, Hkept. reflexivity. }
  exists (drop (numComponentsToKeep es) (reverse (eigenpairs es))). split.
  - rewrite Hpairs, (filter_descending_prefix fst) by exact Hdesc.
    rewrite Hcount. symmetry. apply take_drop.
  - rewrite <- Hcount. apply (drop_descending_le fst). exact Hdesc.
Qed.

End TruncationTheorem.

Lemma truncation_keeps_significant_eigenpairs_witness :
  PosteriorProcessTest.kept_eigenpairs
    PosteriorProcessTest.demo_K PosteriorProcessTest.demo_solver
  = filter (fun p => fst p > 1e-10)
      (reverse (PosteriorProcessTest.eigenpairs PosteriorProcessTest.demo_solver))
  /\ PosteriorProcessTest.kept_eigenvalues PosteriorProcessTest.demo_solver
     = filter (fun l => l > 1e-10)
         (reverse (PosteriorProcessTest.eigenvalues
                     PosteriorProcessTest.demo_solver))
  /\ StronglySorted (fun a b => b <= a)
       (PosteriorProcessTest.kept_eigenvalues PosteriorProcessTest.demo_solver)
  /\ Eigen.shape 2
       (length (PosteriorProcessTest.kept_eigenpairs
                  PosteriorProcessTest.demo_K PosteriorProcessTest.demo_solver))
       (PosteriorProcessTest.rot
          PosteriorProcessTest.demo_K PosteriorProcessTest.demo_solver)
  /\ Eigen.colwise
       (PosteriorProcessTest.rot
          PosteriorProcessTest.demo_K PosteriorProcessTest.demo_solver)
     = snd <$> PosteriorProcessTest.kept_eigenpairs
                 PosteriorProcessTest.demo_K PosteriorProcessTest.demo_solver
  /\ PosteriorProcessTest.kept_eigenvalues PosteriorProcessTest.demo_solver
     = fst <$> PosteriorProcessTest.kept_eigenpairs
                 PosteriorProcessTest.demo_K PosteriorProcessTest.demo_solver
  /\ length (PosteriorProcessTest.scl PosteriorProcessTest.demo_solver)
     = length (PosteriorProcessTest.kept_eigenpairs
                 PosteriorProcessTest.demo_K PosteriorProcessTest.demo_solver)
  /\ exists discarded,
       reverse (PosteriorProcessTest.eigenpairs PosteriorProcessTest.demo_solver)
       = PosteriorProcessTest.kept_eigenpairs
           PosteriorProcessTest.demo_K PosteriorProcessTest.demo_solver
         ++ discarded
       /\ Forall (fun p => fst p <= 1e-10) discarded.
Proof.
  apply (truncation_keeps_significant_eigenpairs 2
           PosteriorProcessTest.demo_K PosteriorProcessTest.demo_solver).
  - repeat split; repeat constructor.
  - reflexivity.
  - repeat constructor. cbn. lra.
Defined.

(** ** The posterior covariance at a training input *)

Section InterpolationFacts.
Import Eigen PosteriorProcessTest.

Variable gp : GaussianProcess.
Hypothesis Hinit : Initialized gp.
Hypothesis Hsigma : m_Sigma gp = 0.
Hypothesis Hsym : symmetric_kernel gp.

Let N : nat := length (m_Samples gp).
Let xs : list VectorType := SampleVectors gp.
Let C : MatrixType := m_CoreMatrix gp.
Let kv (x : VectorType) : VectorType := ComputeKernelVector gp x.

Lemma length_SampleVectors : length xs = N.
Proof. unfold xs, SampleVectors, N. apply length_fmap. Qed.

Lemma length_ComputeKernelVector (x : VectorType) : length (kv x) = N.
Proof.
  unfold kv, ComputeKernelVector. rewrite length_fmap.
  apply length_SampleVectors.
Qed.

Lemma lookup_ComputeKernelVector (x : VectorType) (k : nat) :
  (k < N)%nat -> kv x !!! k = m_Kernel gp x (xs !!! k).
Proof.
  intros Hk. unfold kv, ComputeKernelVector.
  rewrite (list_lookup_total_fmap (fun xi => m_Kernel gp x xi)
             (SampleVectors gp) k)
    by (fold xs; rewrite length_SampleVectors; exact Hk).
  reflexivity.
Qed.

Lemma coeff_NoisyGramMatrix (i j : nat) :
  (i < N)%nat -> (j < N)%nat ->
  coeff (NoisyGramMatrix gp) i j = m_Kernel gp (xs !!! i) (xs !!! j).
Proof.
  intros Hi Hj. unfold NoisyGramMatrix. fold xs. rewrite length_SampleVectors.
  rewrite coeff_tabulate2 by assumption. rewrite Hsigma.
  destruct (decide (i = j)); lra.
Qed.

Lemma shape_NoisyGramMatrix : shape N N (NoisyGramMatrix gp).
Proof.
  unfold NoisyGramMatrix. fold xs. rewrite length_SampleVectors.
  apply shape_tabulate2.
Qed.

Lemma cols_shape (r c : nat) (m : MatrixType) :
  shape r c m -> (0 < r)%nat -> cols m = c.
Proof. intros Hm Hr. unfold cols. apply shape_row with r; assumption. Qed.

Lemma coeff_Identity (n i j : nat) :
  (i < n)%nat -> (j < n)%nat ->
  coeff (Identity n) i j = if decide (i = j) then 1 else 0.
Proof. intros Hi Hj. unfold Identity. apply coeff_tabulate2; assumption. Qed.

(** What [Initialized] says coefficient by coefficient. *)
Lemma Initialized_pointwise :
  (0 < N)%nat ->
  rows C = N /\ cols C = N
  /\ (forall i j, (i < N)%nat -> (j < N)%nat ->
        sum_n N (fun k => coeff (NoisyGramMatrix gp) i k * coeff C k j)
        = if decide (i = j) then 1 else 0)
  /\ (forall i j, (i < N)%nat -> (j < N)%nat ->
        sum_n N (fun k => coeff C i k * coeff (NoisyGramMatrix gp) k j)
        = if decide (i = j) then 1 else 0).
Proof.
  intros HN. destruct Hinit as [H1 H2]. fold N C in H1, H2.
  pose proof shape_NoisyGramMatrix as HG. pose proof HG as [HGr _].
  pose proof (cols_shape N N _ HG HN) as HGc.
  assert (Hr : rows C = N).
  { apply (f_equal rows) in H2. unfold mul, Identity in H2.
    rewrite !rows_tabulate2 in H2. exact H2. }
  assert (Hc : cols C = N).
  { apply (f_equal cols) in H1. unfold mul, Identity in H1.
    rewrite !cols_tabulate2 in H1 by (unfold rows; lia). exact H1. }
  split; [exact Hr|]. split; [exact Hc|]. split.
  - intros i j Hi Hj.
    apply (f_equal (fun m => coeff m i j)) in H1. cbv beta in H1.
    rewrite coeff_Identity in H1 by assumption. rewrite <- H1.
    unfold mul. rewrite coeff_tabulate2 by (unfold rows; lia).
    rewrite HGc. reflexivity.
  - intros i j Hi Hj.
    apply (f_equal (fun m => coeff m i j)) in H2. cbv beta in H2.
    rewrite coeff_Identity in H2 by assumption. rewrite <- H2.
    unfold mul. rewrite coeff_tabulate2 by lia.
    rewrite Hc. reflexivity.
Qed.

Lemma Covariance_unfold (x1 x2 : VectorType) :
  (0 < N)%nat ->
  Covariance gp x1 x2
  = m_Kernel gp x1 x2
    - sum_n N (fun j => sum_n N (fun k => kv x1 !!! k * coeff C k j)
                        * kv x2 !!! j).
Proof.
  intros HN. destruct (Initialized_pointwise HN) as (Hr & Hc & _).
  unfold Covariance, dot, vec_mul. fold C (kv x1) (kv x2).
  rewrite length_tabulate, Hc, length_ComputeKernelVector. f_equal.
  apply sum_n_ext. intros j Hj. rewrite lookup_tabulate by exact Hj.
  reflexivity.
Qed.

(** Without noise, the posterior covariance of a training input with any
    point is zero. *)
Lemma Covariance_at_sample_l (s : nat) (y : VectorType) :
  (s < N)%nat -> Covariance gp (xs !!! s) y = 0.
Proof.
  intros Hs. assert (HN : (0 < N)%nat) by lia.
  destruct (Initialized_pointwise HN) as (_ & _ & HGC & _).
  rewrite Covariance_unfold by exact HN.
  rewrite (sum_n_ext N _
             (fun j => (if decide (s = j) then 1 else 0) * kv y !!! j)).
  - rewrite sum_n_delta by exact Hs.
    rewrite lookup_ComputeKernelVector by exact Hs.
    rewrite (Hsym y). lra.
  - intros j Hj. f_equal. rewrite <- HGC by assumption.
    apply sum_n_ext. intros k Hk.
    rewrite lookup_ComputeKernelVector, coeff_NoisyGramMatrix by assumption.
    reflexivity.
Qed.

Lemma Covariance_at_sample_r (s : nat) (y : VectorType) :
  (s < N)%nat -> Covariance gp y (xs !!! s) = 0.
Proof.
  intros Hs. assert (HN : (0 < N)%nat) by lia.
  destruct (Initialized_pointwise HN) as (_ & _ & _ & HCG).
  rewrite Covariance_unfold by exact HN.
  rewrite (sum_n_ext N _
             (fun j => sum_n N (fun k => kv y !!! k
                                 * (coeff C k j * coeff (NoisyGramMatrix gp) j s)))).
  - rewrite sum_n_swap.
    rewrite (sum_n_ext N _
               (fun k => kv y !!! k * (if decide (k = s) then 1 else 0))).
    + rewrite sum_n_delta_r by exact Hs.
      rewrite lookup_ComputeKernelVector by exact Hs. lra.
    + intros k Hk. rewrite sum_n_scal. f_equal. apply HCG; assumption.
  - intros j Hj. rewrite <- sum_n_scal_r. apply sum_n_ext. intros k Hk.
    rewrite (lookup_ComputeKernelVector (xs !!! s)) by exact Hj.
    rewrite coeff_NoisyGramMatrix by assumption.
    rewrite (Hsym (xs !!! s)). lra.
Qed.

End InterpolationFacts.

(** ** Test 2: draws at the landmarks *)

Section LandmarkFacts.
Import Eigen PosteriorProcessTest.

Variable n : nat.
Variable K : MatrixType.
Variable es : SelfAdjointEigenSolver.
Hypothesis HK : shape n n K.
Hypothesis Hes : square_solver n es.

Let c : nat := numComponentsToKeep es.
Let V : MatrixType := eigenvectors es.
Let ev : VectorType := eigenvalues es.

Lemma kept_le : (c <= n)%nat.
Proof.
  destruct Hes as (Hev & _). rewrite <- Hev. apply numComponentsToKeep_le.
Qed.

Lemma shape_eigenvectors : shape n n V.
Proof. destruct Hes as (_ & Hr & Hc). split; assumption. Qed.

Lemma rot_rows :
  rot K es = (fun row : VectorType => take c (reverse row)) <$> V.
Proof.
  destruct HK as [HKr _]. destruct Hes as (_ & Hr & _).
  unfold rot, topLeftCorner, rowwise_reverse. fold c V.
  rewrite take_ge by (rewrite length_fmap; unfold rows, V; lia).
  rewrite <- list_fmap_compose. reflexivity.
Qed.

Lemma rows_rot : rows (rot K es) = n.
Proof.
  rewrite rot_rows. unfold rows. rewrite length_fmap.
  apply shape_eigenvectors.
Qed.

Lemma row_rot (a : nat) :
  (a < n)%nat -> rot K es !!! a = take c (reverse (V !!! a)).
Proof.
  intros Ha. rewrite rot_rows.
  apply (list_lookup_total_fmap (fun row : VectorType => take c (reverse row))).
  destruct shape_eigenvectors as [Hr _]. lia.
Qed.

Lemma cols_rot : (0 < n)%nat -> cols (rot K es) = c.
Proof.
  intros Hn. unfold cols. rewrite row_rot by exact Hn.
  rewrite length_take, length_reverse.
  rewrite (shape_row n n V 0 shape_eigenvectors Hn).
  pose proof kept_le. lia.
Qed.

Lemma coeff_rot (a k : nat) :
  (a < n)%nat -> (k < c)%nat ->
  coeff (rot K es) a k = coeff V a (n - 1 - k).
Proof.
  intros Ha Hk. pose proof kept_le as Hle. unfold coeff.
  rewrite row_rot by exact Ha.
  rewrite lookup_total_take_lt by exact Hk.
  pose proof (shape_row n n V a shape_eigenvectors Ha) as Hlen.
  rewrite lookup_total_reverse by lia. rewrite Hlen. reflexivity.
Qed.

Lemma length_kept_eigenvalues : length (kept_eigenvalues es) = c.
Proof.
  unfold kept_eigenvalues, topRows. fold c.
  rewrite length_take, length_reverse.
  pose proof (numComponentsToKeep_le es). fold c in H. lia.
Qed.

Lemma lookup_kept_eigenvalues (k : nat) :
  (k < c)%nat -> kept_eigenvalues es !!! k = ev !!! (n - 1 - k)%nat.
Proof.
  intros Hk. pose proof kept_le as Hle. destruct Hes as (Hev & _).
  unfold kept_eigenvalues, topRows. fold c ev.
  rewrite lookup_total_take_lt by exact Hk.
  rewrite lookup_total_reverse by (fold ev in Hev; lia).
  fold ev in Hev. rewrite Hev. reflexivity.
Qed.

Lemma length_scl : length (scl es) = c.
Proof.
  unfold scl, cwise_sqrt. rewrite length_fmap.
  apply length_kept_eigenvalues.
Qed.

Lemma lookup_scl (k : nat) :
  (k < c)%nat -> scl es !!! k = sqrt (ev !!! (n - 1 - k)%nat).
Proof.
  intros Hk. unfold scl, cwise_sqrt.
  rewrite (list_lookup_total_fmap sqrt (kept_eigenvalues es) k)
    by (rewrite length_kept_eigenvalues; exact Hk).
  rewrite lookup_kept_eigenvalues by exact Hk. reflexivity.
Qed.

(** The eigen-equation, coefficient by coefficient. *)
Lemma eigen_equation_pointwise (a k : nat) :
  eigen_equation K es -> (a < n)%nat -> (k < n)%nat ->
  sum_n n (fun b => coeff K a b * coeff V b k) = coeff V a k * ev !!! k.
Proof.
  intros Heq Ha Hk. pose proof HK as [HKr _].
  destruct Hes as (Hev & Hr & _).
  apply (f_equal (fun m => coeff m a k)) in Heq. cbv beta in Heq.
  unfold mul, mul_diag in Heq. fold V ev in Heq.
  rewrite (cols_shape n n K HK) in Heq by lia.
  rewrite (cols_shape n n V shape_eigenvectors) in Heq by lia.
  rewrite !coeff_tabulate2 in Heq by (unfold rows, V, ev; lia).
  exact Heq.
Qed.

(** The coefficient [t] of a draw, for [t] below the grid size. *)
Lemma lookup_sample (z mean : VectorType) (t : nat) :
  length mean = n -> (t < n)%nat ->
  sample (rot K es) (scl es) z mean !!! t
  = sum_n c (fun k => coeff V t (n - 1 - k)
                      * (z !!! k * sqrt (ev !!! (n - 1 - k)%nat)))
    + mean !!! t.
Proof.
  intros Hmean Ht. unfold sample, add_vec.
  rewrite lookup_tabulate by lia. f_equal.
  unfold mul_vec. rewrite lookup_tabulate by (rewrite rows_rot; exact Ht).
  rewrite cols_rot by lia. apply sum_n_ext. intros k Hk.
  rewrite coeff_rot by assumption. f_equal.
  unfold cwise_mul. rewrite lookup_tabulate by (rewrite length_scl; exact Hk).
  rewrite lookup_scl by exact Hk. reflexivity.
Qed.

(** Where row [t] of the covariance matrix vanishes, every draw equals
    the mean. *)
Lemma sample_at_zero_row (z mean : VectorType) (t : nat) :
  eigen_equation K es -> length mean = n -> (t < n)%nat ->
  (forall b, (b < n)%nat -> coeff K t b = 0) ->
  sample (rot K es) (scl es) z mean !!! t = mean !!! t.
Proof.
  intros Heq Hmean Ht Hrow. rewrite lookup_sample by assumption.
  pose proof kept_le as Hle.
  rewrite sum_n_zero; [lra|]. intros k Hk.
  assert (Hj : (n - 1 - k < n)%nat) by lia.
  pose proof (eigen_equation_pointwise t (n - 1 - k) Heq Ht Hj) as Hp.
  rewrite sum_n_zero in Hp
    by (intros b Hb; rewrite Hrow by exact Hb; lra).
  symmetry in Hp. apply Rmult_integral in Hp as [Hv|Hl].
  - rewrite Hv. lra.
  - rewrite Hl, sqrt_0. lra.
Qed.

End LandmarkFacts.

Section InterpolationTheorem.
Import Eigen PosteriorProcessTest.

(** Without noise, the row of the kernel matrix at a grid point that is
    a training input vanishes. *)
Lemma kernel_matrix_row_at_sample
  (gp : GaussianProcess) (n t s b : nat) :
  Initialized gp -> m_Sigma gp = 0 -> symmetric_kernel gp ->
  (t < n)%nat -> (s < length (m_Samples gp))%nat ->
  grid_point n t = SampleVectors gp !!! s ->
  (b < n)%nat ->
  coeff (tabulate2 n n
           (fun a b => Covariance gp (grid_point n (Nat.min a b))
                                     (grid_point n (Nat.max a b)))) t b = 0.
Proof.
  intros Hinit Hsigma Hsym Ht Hs Hgrid Hb.
  rewrite coeff_tabulate2 by assumption.
  destruct (Nat.le_ge_cases t b) as [Htb|Htb].
  - rewrite Nat.min_l, Hgrid by exact Htb.
    apply Covariance_at_sample_l; assumption.
  - rewrite Nat.min_r, Nat.max_l, Hgrid by exact Htb.
    apply Covariance_at_sample_r; assumption.
Qed.


End InterpolationTheorem.

Section InterpolationWitness.
Import Eigen PosteriorProcessTest.

Lemma demo_kernel_matrix :
  kernel_matrix (Predict demo_gp) (Covariance demo_gp) 2 = (demo_mean, demo_K).
Proof.
  pose proof (kernel_matrix_spec (Predict demo_gp) (Covariance demo_gp) 2) as H.
  cbv zeta in H. rewrite H. clear H.
  unfold demo_mean, demo_K, tabulate2, tabulate.
  cbn [seq fmap list_fmap Nat.min Nat.max].
  unfold Predict, Covariance, ComputeKernelVector, ComputeLabelMatrix,
    SampleVectors, grid_point.
  cbn. repeat f_equal; lra.
Qed.

Lemma demo_Initialized : Initialized demo_gp.
Proof.
  split; cbn; repeat f_equal;
    destruct (decide (0%nat = 0%nat)) as [_|Hne]; try lra; contradiction.
Qed.

Lemma demo_eigen_equation : eigen_equation demo_K demo_solver.
Proof. unfold eigen_equation. cbn. repeat f_equal; lra. Qed.

Lemma demo_square_solver : square_solver 2 demo_solver.
Proof. repeat split; repeat constructor. Qed.

Lemma demo_shape : shape 2 2 demo_K.
Proof. repeat split; repeat constructor. Qed.

Lemma sample_is_Q_z_plus_mean_witness :
  cols (rot demo_K demo_solver) = length (scl demo_solver)
  /\ sample (rot demo_K demo_solver) (scl demo_solver) [7] demo_mean
     = spec_sample (Q demo_K demo_solver) [7] demo_mean.
Proof.
  assert (H : cols (rot demo_K demo_solver) = length (scl demo_solver)).
  { rewrite (cols_rot 2 demo_K demo_solver demo_shape demo_square_solver)
      by lia.
    rewrite length_scl. reflexivity. }
  split; [exact H|].
  apply (sample_is_Q_z_plus_mean (rot demo_K demo_solver) (scl demo_solver)
           [7] demo_mean H).
Defined.


End InterpolationWitness.

(** ** Test 2: the accuracy of the square root *)

Section SumAlgebra.

Lemma sum_n_mult (n m : nat) (a b : nat -> R) :
  sum_n n a * sum_n m b = sum_n n (fun i => sum_n m (fun j => a i * b j)).
Proof.
  rewrite <- sum_n_scal_r. apply sum_n_ext. intros i _.
  rewrite sum_n_scal. reflexivity.
Qed.

(** Four nested sums, the inner two moved outside. *)
Lemma sum_n_swap4 (n d : nat) (F : nat -> nat -> nat -> nat -> R) :
  sum_n n (fun i => sum_n n (fun j =>
    sum_n d (fun p => sum_n d (fun q => F i j p q))))
  = sum_n d (fun p => sum_n d (fun q =>
      sum_n n (fun i => sum_n n (fun j => F i j p q)))).
Proof.
  rewrite (sum_n_ext n _
             (fun i => sum_n d (fun p => sum_n n (fun j =>
                         sum_n d (fun q => F i j p q)))))
    by (intros i _; apply sum_n_swap).
  rewrite sum_n_swap. apply sum_n_ext. intros p _.
  rewrite (sum_n_ext n _
             (fun i => sum_n d (fun q => sum_n n (fun j => F i j p q))))
    by (intros i _; apply sum_n_swap).
  apply sum_n_swap.
Qed.

Lemma sum_n_delta_sq (d : nat) (f : nat -> nat -> R) :
  sum_n d (fun p => sum_n d (fun q =>
    f p q * ((if decide (p = q) then 1 else 0)
             * (if decide (p = q) then 1 else 0))))
  = sum_n d (fun p => f p p).
Proof.
  apply sum_n_ext. intros p Hp.
  rewrite (sum_n_ext d _
             (fun q => (if decide (p = q) then 1 else 0) * f p q)).
  - apply sum_n_delta. exact Hp.
  - intros q _. destruct (decide (p = q)); lra.
Qed.

End SumAlgebra.

Section SquareRootFacts.
Import Eigen PosteriorProcessTest.

Variable n : nat.
Variable K : MatrixType.
Variable es : SelfAdjointEigenSolver.
Hypothesis HK : shape n n K.
Hypothesis Hes : square_solver n es.
Hypothesis Hsorted : Sorted Rle (eigenvalues es).
Hypothesis Horth : orthonormal_eigenvectors es.
Hypothesis Hdec : spectral_decomposition K es.

Let c : nat := numComponentsToKeep es.
Let V : MatrixType := eigenvectors es.
Let ev : VectorType := eigenvalues es.

Lemma eigenvalues_descending :
  StronglySorted (fun a b : R => b <= a) (reverse ev).
Proof.
  apply (reverse_descending (fun x => x)).
  apply Sorted_StronglySorted; [|exact Hsorted].
  intros x y z. apply Rle_trans.
Qed.

Lemma count_reverse :
  length (filter (fun l => l > 1e-10) (reverse ev)) = c.
Proof.
  rewrite filter_reverse, length_reverse. unfold c.
  symmetry. apply numComponentsToKeep_count.
Qed.

Lemma kept_eigenvalue_gt (k : nat) :
  (k < c)%nat -> ev !!! (n - 1 - k)%nat > 1e-10.
Proof.
  intros Hk. pose proof (kept_le n es Hes) as Hle. fold c in Hle.
  destruct Hes as (Hev & _). fold ev in Hev.
  pose proof (take_descending_gt (fun x => x) _ eigenvalues_descending) as H.
  cbv beta in H. rewrite count_reverse in H.
  apply (Forall_lookup_total_1 _ _ k) in H;
    [|rewrite length_take, length_reverse; lia].
  rewrite lookup_total_take_lt, lookup_total_reverse, Hev in H by lia.
  exact H.
Qed.

Lemma dropped_eigenvalue_le (m : nat) :
  (m < n - c)%nat -> ev !!! m <= 1e-10.
Proof.
  intros Hm. pose proof (kept_le n es Hes) as Hle. fold c in Hle.
  destruct Hes as (Hev & _). fold ev in Hev.
  pose proof (drop_descending_le (fun x => x) _ eigenvalues_descending) as H.
  cbv beta in H. rewrite count_reverse in H.
  apply (Forall_lookup_total_1 _ _ (n - c - 1 - m)%nat) in H;
    [|rewrite length_drop, length_reverse; lia].
  rewrite lookup_total_drop, lookup_total_reverse, Hev in H by lia.
  replace (n - 1 - (c + (n - c - 1 - m)))%nat with m in H by lia.
  exact H.
Qed.

Lemma shape_adjoint (r k : nat) (m : MatrixType) :
  shape r k m -> (0 < r)%nat -> shape k r (adjoint m).
Proof.
  intros Hm Hr. unfold adjoint.
  rewrite (cols_shape r k m Hm Hr). destruct Hm as [Hlen _].
  unfold rows. rewrite Hlen. apply shape_tabulate2.
Qed.

Lemma coeff_adjoint (r k : nat) (m : MatrixType) (i j : nat) :
  shape r k m -> (i < k)%nat -> (j < r)%nat ->
  coeff (adjoint m) i j = coeff m j i.
Proof.
  intros Hm Hi Hj. unfold adjoint.
  rewrite (cols_shape r k m Hm) by lia. destruct Hm as [Hr _].
  unfold rows. rewrite Hr. rewrite coeff_tabulate2 by assumption.
  reflexivity.
Qed.

Lemma orthonormal_pointwise (p q : nat) :
  (p < n)%nat -> (q < n)%nat ->
  sum_n n (fun a => coeff V a p * coeff V a q)
  = if decide (p = q) then 1 else 0.
Proof.
  intros Hp Hq. pose proof (shape_eigenvectors n es Hes) as HV. fold V in HV.
  destruct Hes as (Hev & _).
  pose proof Horth as H. unfold orthonormal_eigenvectors in H.
  rewrite Hev in H. fold V in H.
  apply (f_equal (fun m => coeff m p q)) in H. cbv beta in H.
  rewrite coeff_Identity in H by assumption. rewrite <- H.
  pose proof (shape_adjoint n n V HV ltac:(lia)) as HVt.
  unfold mul. rewrite (cols_shape n n _ HVt), (cols_shape n n V HV) by lia.
  destruct HVt as [HVtr _]. unfold rows. rewrite HVtr.
  rewrite coeff_tabulate2 by assumption.
  apply sum_n_ext. intros a Ha.
  rewrite (coeff_adjoint n n V) by assumption. reflexivity.
Qed.

Lemma decomposition_pointwise (i j : nat) :
  (i < n)%nat -> (j < n)%nat ->
  coeff K i j = sum_n n (fun m => ev !!! m * (coeff V i m * coeff V j m)).
Proof.
  intros Hi Hj. pose proof (shape_eigenvectors n es Hes) as HV. fold V in HV.
  destruct Hes as (Hev & Hr & _). fold ev in Hev. fold V in Hr.
  pose proof (shape_adjoint n n V HV ltac:(lia)) as HVt.
  assert (HVD : shape n n (mul_diag V ev)).
  { unfold mul_diag, rows. rewrite Hr, Hev. apply shape_tabulate2. }
  rewrite Hdec at 1. fold V ev. unfold mul.
  rewrite (cols_shape n n _ HVt), (cols_shape n n _ HVD) by lia.
  rewrite (proj1 HVD : rows (mul_diag V ev) = n).
  rewrite coeff_tabulate2 by assumption.
  apply sum_n_ext. intros m Hm.
  rewrite (coeff_adjoint n n V) by assumption.
  unfold mul_diag, rows. rewrite Hr, Hev.
  rewrite coeff_tabulate2 by assumption. lra.
Qed.

(** The decomposition and orthonormality give the eigen-equation. *)
Lemma spectral_eigen_pointwise (i m : nat) :
  (i < n)%nat -> (m < n)%nat ->
  sum_n n (fun j => coeff K i j * coeff V j m) = coeff V i m * ev !!! m.
Proof.
  intros Hi Hm.
  rewrite (sum_n_ext n _
             (fun j => sum_n n (fun p => (ev !!! p * coeff V i p)
                                 * (coeff V j p * coeff V j m)))).
  - rewrite sum_n_swap.
    rewrite (sum_n_ext n _
               (fun p => (ev !!! p * coeff V i p)
                         * (if decide (p = m) then 1 else 0))).
    + rewrite sum_n_delta_r by exact Hm. lra.
    + intros p Hp. rewrite sum_n_scal. f_equal.
      apply orthonormal_pointwise; assumption.
  - intros j Hj. rewrite decomposition_pointwise by assumption.
    rewrite <- sum_n_scal_r. apply sum_n_ext. intros p _. lra.
Qed.

Lemma lookup_col (m : nat) (i : nat) :
  (i < n)%nat -> col V m !!! i = coeff V i m.
Proof.
  intros Hi. destruct Hes as (_ & Hr & _). fold V in Hr. unfold col.
  apply (list_lookup_total_fmap (fun row : VectorType => row !!! m)). lia.
Qed.

(** The eigenvalues of a positive semidefinite matrix are not
    negative. *)
Lemma eigenvalue_nonneg (m : nat) :
  positive_semidefinite K -> (m < n)%nat -> 0 <= ev !!! m.
Proof.
  intros Hpsd Hm. destruct Hes as (_ & Hr & _). fold V in Hr.
  pose proof HK as [HKr _].
  assert (Hlen : length (col V m) = n) by (unfold col; rewrite length_fmap; exact Hr).
  specialize (Hpsd (col V m) ltac:(unfold rows; lia)).
  unfold dot, mul_vec in Hpsd.
  rewrite Hlen, (cols_shape n n K HK) in Hpsd by lia.
  unfold rows in Hpsd. rewrite HKr in Hpsd.
  rewrite (sum_n_ext n _
             (fun i => ev !!! m * (coeff V i m * coeff V i m))) in Hpsd.
  - rewrite sum_n_scal, orthonormal_pointwise in Hpsd by exact Hm.
    rewrite decide_True in Hpsd by reflexivity. lra.
  - intros i Hi. rewrite lookup_tabulate, lookup_col by exact Hi.
    rewrite (sum_n_ext n _ (fun j => coeff K i j * coeff V j m))
      by (intros j Hj; rewrite lookup_col by exact Hj; reflexivity).
    rewrite spectral_eigen_pointwise by assumption. lra.
Qed.

Lemma shape_Q : shape n c (Q K es).
Proof.
  unfold Q, mul_diag. rewrite (rows_rot n K es HK Hes), (length_scl es).
  apply shape_tabulate2.
Qed.

Lemma coeff_Q (i k : nat) :
  (i < n)%nat -> (k < c)%nat ->
  coeff (Q K es) i k
  = coeff V i (n - 1 - k) * sqrt (ev !!! (n - 1 - k)%nat).
Proof.
  intros Hi Hk. unfold Q, mul_diag.
  rewrite (rows_rot n K es HK Hes), (length_scl es).
  rewrite coeff_tabulate2 by assumption.
  rewrite (coeff_rot n K es HK Hes), (lookup_scl n es Hes) by assumption.
  reflexivity.
Qed.

(** [Q Q^T], coefficient by coefficient. *)
Lemma coeff_QQt (i j : nat) :
  (i < n)%nat -> (j < n)%nat ->
  coeff (mul (Q K es) (adjoint (Q K es))) i j
  = sum_n c (fun k => ev !!! (n - 1 - k)%nat
                      * (coeff V i (n - 1 - k) * coeff V j (n - 1 - k))).
Proof.
  intros Hi Hj. pose proof shape_Q as HQ.
  unfold mul. rewrite (proj1 HQ : rows (Q K es) = n).
  rewrite (cols_shape n c _ HQ) by lia.
  destruct (decide (c = 0%nat)) as [Hc|Hc].
  - rewrite Hc. cbn [sum_n].
    unfold adjoint at 1. rewrite (cols_shape n c _ HQ) by lia.
    rewrite Hc. unfold coeff. rewrite row_tabulate2 by exact Hi.
    apply lookup_tabulate_ge. cbn. lia.
  - pose proof (shape_adjoint n c _ HQ ltac:(lia)) as HQt.
    rewrite (cols_shape c n _ HQt) by lia.
    rewrite coeff_tabulate2 by assumption.
    apply sum_n_ext. intros k Hk.
    rewrite (coeff_adjoint n c _ k j HQ) by assumption.
    rewrite !coeff_Q by assumption.
    pose proof (kept_eigenvalue_gt k Hk) as Hgt.
    rewrite <- (sqrt_sqrt (ev !!! (n - 1 - k)%nat)) at 3 by lra. lra.
Qed.

(** The residual [Q Q^T - K] is what the discarded components
    contribute. *)
Lemma coeff_residual (i j : nat) :
  (i < n)%nat -> (j < n)%nat ->
  coeff (sub (mul (Q K es) (adjoint (Q K es))) K) i j
  = - sum_n (n - c) (fun m => ev !!! m * (coeff V i m * coeff V j m)).
Proof.
  intros Hi Hj. pose proof (kept_le n es Hes) as Hle. fold c in Hle.
  unfold sub. rewrite (cols_shape n n K HK) by lia.
  rewrite (proj1 HK : rows K = n).
  rewrite coeff_tabulate2 by assumption.
  rewrite coeff_QQt, decomposition_pointwise by assumption.
  set (g := fun m => ev !!! m * (coeff V i m * coeff V j m)).
  pose proof (sum_n_app (n - c) c g) as Happ.
  replace (n - c + c)%nat with n in Happ by lia. rewrite Happ.
  rewrite (sum_n_rev c (fun k => g (n - c + k)%nat)).
  rewrite (sum_n_ext c (fun k => g (n - c + (c - 1 - k))%nat)
                       (fun k => g (n - 1 - k)%nat))
    by (intros k Hk; f_equal; lia).
  unfold g. lra.
Qed.

(** The squared Frobenius norm of the residual is the sum of the squares
    of the discarded eigenvalues. *)
Lemma squaredNorm_residual :
  squaredNorm (sub (mul (Q K es) (adjoint (Q K es))) K)
  = sum_n (n - c) (fun p => ev !!! p * ev !!! p).
Proof.
  pose proof (kept_le n es Hes) as Hle. fold c in Hle.
  destruct (decide (n = 0%nat)) as [Hn|Hn].
  - unfold squaredNorm, sub. rewrite rows_tabulate2.
    rewrite (proj1 HK : rows K = n), Hn. reflexivity.
  - set (S := sub (mul (Q K es) (adjoint (Q K es))) K).
    assert (HS : shape n n S).
    { unfold S, sub. rewrite (cols_shape n n K HK) by lia.
      rewrite (proj1 HK : rows K = n). apply shape_tabulate2. }
    unfold squaredNorm. rewrite (cols_shape n n S HS) by lia.
    rewrite (proj1 HS : rows S = n).
    set (F := fun i j p q : nat =>
                (ev !!! p * ev !!! q)
                * ((coeff V i p * coeff V i q) * (coeff V j p * coeff V j q))).
    rewrite (sum_n_ext n _
               (fun i => sum_n n (fun j =>
                  sum_n (n - c) (fun p => sum_n (n - c) (fun q => F i j p q))))).
    + rewrite sum_n_swap4.
      rewrite <- (sum_n_delta_sq (n - c) (fun p q => ev !!! p * ev !!! q)).
      apply sum_n_ext. intros p Hp. apply sum_n_ext. intros q Hq.
      unfold F.
      rewrite (sum_n_ext n _
                 (fun i => (ev !!! p * ev !!! q * (coeff V i p * coeff V i q))
                           * sum_n n (fun j => coeff V j p * coeff V j q))).
      * rewrite sum_n_scal_r, sum_n_scal.
        rewrite !orthonormal_pointwise by lia. lra.
      * intros i _. rewrite <- sum_n_scal. apply sum_n_ext. intros j _. lra.
    + intros i Hi. apply sum_n_ext. intros j Hj.
      unfold S. rewrite coeff_residual by assumption.
      rewrite Rmult_opp_opp, sum_n_mult.
      apply sum_n_ext. intros p _. apply sum_n_ext. intros q _.
      unfold F. lra.
Qed.

Lemma err_bound :
  positive_semidefinite K ->
  err K es <= sqrt (INR n * (1e-10 * 1e-10)).
Proof.
  intros Hpsd. pose proof (kept_le n es Hes) as Hle. fold c in Hle.
  unfold err, norm. rewrite squaredNorm_residual.
  apply sqrt_le_1_alt.
  apply Rle_trans with (sum_n (n - c) (fun _ => 1e-10 * 1e-10)).
  - apply sum_n_le. intros p Hp.
    pose proof (eigenvalue_nonneg p Hpsd ltac:(lia)) as H0.
    pose proof (dropped_eigenvalue_le p Hp) as H1.
    apply Rmult_le_compat; assumption.
  - rewrite sum_n_const. apply Rmult_le_compat_r; [lra|].
    apply le_INR. lia.
Qed.

(** On a grid of at most 50 points the bound is below the tolerance of
    the test. *)
Lemma err_below_tolerance :
  (n <= 50)%nat -> positive_semidefinite K -> err K es < 1e-8.
Proof.
  intros Hn Hpsd.
  eapply Rle_lt_trans; [apply err_bound; exact Hpsd|].
  rewrite <- (sqrt_square 1e-8) by lra.
  apply sqrt_lt_1_alt. split.
  - apply Rmult_le_pos; [apply pos_INR|lra].
  - apply Rle_lt_trans with (50 * (1e-10 * 1e-10)); [|lra].
    apply Rmult_le_compat_r; [lra|].
    apply (le_INR n 50) in Hn. cbn in Hn. lra.
Qed.

(** An orthonormal decomposition satisfies the eigen-equation. *)
Lemma spectral_eigen_equation : eigen_equation K es.
Proof.
  pose proof (shape_eigenvectors n es Hes) as HV. fold V in HV.
  destruct Hes as (Hev & Hr & _). fold ev in Hev. fold V in Hr.
  unfold eigen_equation. fold V ev. unfold mul, mul_diag.
  rewrite (proj1 HK : rows K = n). unfold rows. rewrite Hr, Hev.
  destruct (decide (n = 0%nat)) as [->|Hn]; [reflexivity|].
  rewrite (cols_shape n n K HK), (cols_shape n n V HV) by lia.
  apply shape_ext with n n; try apply shape_tabulate2.
  intros i m Hi Hm. rewrite !coeff_tabulate2 by assumption.
  apply spectral_eigen_pointwise; assumption.
Qed.

End SquareRootFacts.

Section SquareRootTheorem.
Import Eigen PosteriorProcessTest.

(** C6.  For a positive semidefinite covariance matrix over a grid of at
    most 50 points and a solver that returns an orthonormal
    decomposition with increasing eigenvalues, [Q Q^T] is [K] up to a
    Frobenius error below [1e-8], and the accuracy check of [Test2] does
    not throw. *)
Theorem decomposition_is_square_root
  (eigenSolver : MatrixType -> SelfAdjointEigenSolver)
  (show_double : R -> string) (n : nat) (K : MatrixType) :
  (n <= 50)%nat -> shape n n K -> positive_semidefinite K ->
  square_solver n (eigenSolver K) ->
  Sorted Rle (eigenvalues (eigenSolver K)) ->
  orthonormal_eigenvectors (eigenSolver K) ->
  spectral_decomposition K (eigenSolver K) ->
  err K (eigenSolver K) < 1e-8
  /\ decomposition_check eigenSolver show_double K = Returned tt.
Proof.
  intros Hn HK Hpsd Hes Hsorted Horth Hdec.
  assert (Herr : err K (eigenSolver K) < 1e-8)
    by (apply (err_below_tolerance n K (eigenSolver K)); assumption).
  split; [exact Herr|].
  unfold decomposition_check. cbv zeta.
  destruct (Rgt_dec (err K (eigenSolver K)) 1e-8) as [Hgt|_]; [lra|reflexivity].
Qed.

Lemma decomposition_is_square_root_witness :
  err demo_K demo_solver < 1e-8
  /\ decomposition_check (fun _ => demo_solver) (fun _ => EmptyString) demo_K
     = Returned tt.
Proof.
  apply (decomposition_is_square_root
           (fun _ => demo_solver) (fun _ => EmptyString) 2 demo_K).
  - lia.
  - exact demo_shape.
  - intros v Hv. destruct v as [|a [|b [|]]]; try discriminate.
    unfold dot, mul_vec. cbn. nra.
  - exact demo_square_solver.
  - repeat constructor. cbn. lra.
  - unfold orthonormal_eigenvectors. cbn.
    repeat f_equal; repeat case_decide; try lia; lra.
  - unfold spectral_decomposition. cbn. repeat f_equal; lra.
Defined.

End SquareRootTheorem.

(** ** Test 2: the check at the landmarks *)

Section Test2Facts.
Import Eigen PosteriorProcessTest.

Lemma landmarks_check_passes (r mean : VectorType) :
  (forall t, t ∈ [10; 20; 30; 40]%nat -> r !!! t = mean !!! t) ->
  landmarks_check r mean = Returned tt.
Proof.
  intros H. unfold landmarks_check.
  assert (Hoff : forall t, t ∈ [10; 20; 30; 40]%nat ->
                           off_landmark r mean t = false).
  { intros t Ht. unfold off_landmark. rewrite (H t Ht).
    rewrite Rminus_diag, Rabs_R0. apply bool_decide_eq_false. lra. }
  rewrite !Hoff by (repeat constructor). reflexivity.
Qed.

End Test2Facts.

(** ** The noise vector against the retained components *)

Section NoiseLengthFacts.
Import Eigen PosteriorProcessTest.

Variable n : nat.
Variable K : MatrixType.
Variable es : SelfAdjointEigenSolver.
Hypothesis HK : shape n n K.
Hypothesis Hes : square_solver n es.
Hypothesis Heq : eigen_equation K es.
Hypothesis Hrows : orthonormal_rows es.

(** Where a row of the covariance matrix vanishes, some eigenvalue is at
    most the threshold, so fewer components are retained than the grid
    has points. *)
Lemma zero_row_discards (t : nat) :
  (t < n)%nat -> (forall b, (b < n)%nat -> coeff K t b = 0) ->
  (numComponentsToKeep es < n)%nat.
Proof.
  intros Ht Hrow.
  pose proof (kept_le n es Hes) as Hle.
  destruct (decide (numComponentsToKeep es = n)) as [Hall|Hne]; [|lia].
  exfalso.
  pose proof (shape_eigenvectors n es Hes) as HV.
  pose proof Hes as (Hev & _).
  assert (Hpos : forall k, (k < n)%nat -> eigenvalues es !!! k > 1e-10).
  { intros k Hk.
    destruct (decide (eigenvalues es !!! k > 1e-10)) as [Hgt|Hngt];
      [exact Hgt|exfalso].
    rewrite numComponentsToKeep_count in Hall.
    assert (Hin : eigenvalues es !!! k ∈ eigenvalues es)
      by (apply list_elem_of_lookup_total_2; lia).
    pose proof (length_filter_lt (fun l => l > 1e-10) _ _ Hin Hngt). lia. }
  assert (Hzero : forall k, (k < n)%nat -> coeff (eigenvectors es) t k = 0).
  { intros k Hk.
    pose proof (eigen_equation_pointwise n K es HK Hes t k Heq Ht Hk) as Hp.
    rewrite sum_n_zero in Hp by (intros b Hb; rewrite Hrow by exact Hb; lra).
    symmetry in Hp. apply Rmult_integral in Hp as [Hv|Hl]; [exact Hv|].
    specialize (Hpos k Hk). lra. }
  pose proof Hrows as H. unfold orthonormal_rows in H. rewrite Hev in H.
  apply (f_equal (fun m => coeff m t t)) in H. cbv beta in H.
  rewrite coeff_Identity, decide_True in H by (try reflexivity; exact Ht).
  pose proof (shape_adjoint n n _ HV ltac:(lia)) as HVt.
  unfold mul in H.
  rewrite (cols_shape n n _ HVt), (cols_shape n n _ HV) in H by lia.
  rewrite (proj1 HV : rows (eigenvectors es) = n) in H.
  rewrite coeff_tabulate2 in H by exact Ht.
  rewrite sum_n_zero in H; [lra|].
  intros k Hk. rewrite Hzero by exact Hk. lra.
Qed.

(** Then the noise vector of a draw is longer than [scl]. *)
Lemma noise_longer_than_scl (t : nat) (g : variate_generator) :
  (t < n)%nat -> (forall b, (b < n)%nat -> coeff K t b = 0) ->
  (length (scl es) < length (fst (draw_noise n g)))%nat.
Proof.
  intros Ht Hrow. rewrite draw_noise_length, length_scl.
  apply (zero_row_discards t); assumption.
Qed.

End NoiseLengthFacts.

(** * Further properties of the sources *)

(** ** [GaussianLogLikelihood::operator()] *)

Section LikelihoodValueFacts.
Import Eigen Likelihood.

Lemma constant_term_floor (N : nat) :
  IZR (Z.quot (- Z.of_nat N) 2) = - INR (N / 2).
Proof.
  rewrite Z.quot_opp_l by lia.
  rewrite Z.quot_div_nonneg by lia.
  change 2%Z with (Z.of_nat 2). rewrite <- Nat2Z.inj_div.
  rewrite opp_IZR, <- INR_IZR_INZ. reflexivity.
Qed.

(** With one output column, [Y^T C Y] is the 1 x 1 matrix of the
    quadratic form of the labels in the core matrix. *)
Lemma label_quadratic_form (gp : GaussianProcess) :
  cols (ComputeLabelMatrix gp) = 1%nat ->
  let M := mul (mul (adjoint (ComputeLabelMatrix gp)) (m_CoreMatrix gp))
               (ComputeLabelMatrix gp) in
  rows M = 1%nat /\ cols M = 1%nat
  /\ coeff M 0 0
     = sum_n (cols (m_CoreMatrix gp)) (fun j =>
         sum_n (rows (ComputeLabelMatrix gp)) (fun k =>
           coeff (ComputeLabelMatrix gp) k 0 * coeff (m_CoreMatrix gp) k j)
         * coeff (ComputeLabelMatrix gp) j 0).
Proof.
  intros Hcols. cbv zeta.
  set (Y := ComputeLabelMatrix gp) in *. set (C := m_CoreMatrix gp).
  assert (HYt : adjoint Y = tabulate2 1 (rows Y) (fun j i => coeff Y i j))
    by (unfold adjoint; rewrite Hcols; reflexivity).
  set (A := mul (adjoint Y) C).
  assert (HA : A = tabulate2 1 (cols C)
                     (fun i j => sum_n (rows Y) (fun k => coeff Y k i * coeff C k j))).
  { unfold A, mul. rewrite HYt, rows_tabulate2, cols_tabulate2 by lia.
    unfold tabulate2. apply list_fmap_ext. intros ? i Hi%lookup_seq.
    destruct Hi as [-> Hi]. apply tabulate_ext. intros j Hj.
    apply sum_n_ext. intros k Hk.
    fold (tabulate2 1 (rows Y) (fun j0 i0 => coeff Y i0 j0)).
    rewrite coeff_tabulate2 by assumption. reflexivity. }
  set (M := mul A Y).
  assert (HM : M = tabulate2 1 1
                     (fun i j => sum_n (cols C) (fun k => coeff A i k * coeff Y k j))).
  { assert (HAr : rows A = 1%nat) by (rewrite HA; apply rows_tabulate2).
    assert (HAc : cols A = cols C)
      by (rewrite HA; apply cols_tabulate2; lia).
    unfold M, mul. rewrite Hcols, HAr, HAc. reflexivity. }
  split; [rewrite HM; apply rows_tabulate2|].
  split; [rewrite HM; apply cols_tabulate2; lia|].
  rewrite HM, coeff_tabulate2 by lia. apply sum_n_ext. intros j Hj.
  rewrite HA, coeff_tabulate2 by lia. reflexivity.
Qed.

(** For a single output dimension and a positive determinant,
    [operator()] returns one entry: minus half the quadratic form of the
    labels in the core matrix, minus half the logarithm of the
    determinant, minus [log(2 pi)] times the integer half of the number
    of rows of the core matrix. *)
Theorem GaussianLogLikelihood_closed_form (gp : GaussianProcess) :
  cols (ComputeLabelMatrix gp) = 1%nat ->
  m_Determinant gp > 0 ->
  GaussianLogLikelihood_call gp
  = Returned
      [ -0.5 * sum_n (cols (m_CoreMatrix gp)) (fun j =>
                 sum_n (rows (ComputeLabelMatrix gp)) (fun k =>
                   coeff (ComputeLabelMatrix gp) k 0 * coeff (m_CoreMatrix gp) k j)
                 * coeff (ComputeLabelMatrix gp) j 0)
        - 0.5 * ln (m_Determinant gp)
        - INR (rows (m_CoreMatrix gp) / 2) * ln (2 * PI) ].
Proof.
  intros Hcols Hdet.
  destruct (label_quadratic_form gp Hcols) as (HMr & HMc & HM00).
  unfold GaussianLogLikelihood_call, GetCoreMatrix, ComputeCoreMatrix,
    GetLabelMatrix.
  destruct (Rle_dec (m_Determinant gp) 0) as [Hle|_]; [lra|].
  f_equal. rewrite constant_term_floor.
  unfold as_vector, scale. rewrite rows_tabulate2, HMr, HMc.
  unfold tabulate at 1, add_scalar.
  cbn [seq fmap list_fmap]. rewrite coeff_tabulate2 by lia.
  f_equal. rewrite HM00. lra.
Qed.

Lemma GaussianLogLikelihood_closed_form_witness :
  GaussianLogLikelihood_call single_sample_gp
  = Returned
      [ -0.5 * sum_n (cols (m_CoreMatrix single_sample_gp)) (fun j =>
                 sum_n (rows (ComputeLabelMatrix single_sample_gp)) (fun k =>
                   coeff (ComputeLabelMatrix single_sample_gp) k 0
                   * coeff (m_CoreMatrix single_sample_gp) k j)
                 * coeff (ComputeLabelMatrix single_sample_gp) j 0)
        - 0.5 * ln (m_Determinant single_sample_gp)
        - INR (rows (m_CoreMatrix single_sample_gp) / 2) * ln (2 * PI) ].
Proof.
  apply (GaussianLogLikelihood_closed_form single_sample_gp).
  - reflexivity.
  - cbn. lra.
Defined.

(** The data-fit term never raises the value: for a single output
    dimension, a positive determinant and a positive semidefinite core
    matrix with as many rows as the label matrix, the entry returned is
    at most the sum of the complexity penalty and the constant term. *)
Theorem GaussianLogLikelihood_upper_bound (gp : GaussianProcess) :
  cols (ComputeLabelMatrix gp) = 1%nat ->
  m_Determinant gp > 0 ->
  shape (rows (ComputeLabelMatrix gp)) (rows (ComputeLabelMatrix gp))
        (m_CoreMatrix gp) ->
  PosteriorProcessTest.positive_semidefinite (m_CoreMatrix gp) ->
  exists v,
    GaussianLogLikelihood_call gp = Returned [v]
    /\ v <= - 0.5 * ln (m_Determinant gp)
            - INR (rows (ComputeLabelMatrix gp) / 2) * ln (2 * PI).
Proof.
  intros Hcols Hdet HC Hpsd.
  destruct (label_quadratic_form gp Hcols) as (HMr & HMc & HM00).
  unfold GaussianLogLikelihood_call, GetCoreMatrix, ComputeCoreMatrix,
    GetLabelMatrix.
  destruct (Rle_dec (m_Determinant gp) 0) as [Hle|_]; [lra|].
  rewrite constant_term_floor.
  unfold as_vector, scale. rewrite rows_tabulate2, HMr, HMc.
  unfold tabulate at 1, add_scalar.
  cbn [seq fmap list_fmap]. rewrite coeff_tabulate2 by lia.
  eexists. split; [reflexivity|].
  rewrite HM00, (proj1 HC : rows _ = _).
  set (Y := ComputeLabelMatrix gp) in *. set (C := m_CoreMatrix gp) in *.
  set (N := rows Y) in *.
  assert (HN : (0 < N)%nat).
  { unfold N, rows. destruct Y; [discriminate|cbn; lia]. }
  rewrite (cols_shape N N C HC HN).
  pose proof (Hpsd (tabulate N (fun k => coeff Y k 0))) as Hq.
  rewrite length_tabulate in Hq. specialize (Hq (eq_sym (proj1 HC))).
  unfold dot, mul_vec in Hq.
  rewrite length_tabulate, (proj1 HC : rows C = N), (cols_shape N N C HC HN)
    in Hq.
  assert (Heq : sum_n N (fun k =>
                  tabulate N (fun k0 => coeff Y k0 0) !!! k
                  * tabulate N (fun i =>
                      sum_n N (fun k0 =>
                        coeff C i k0
                        * tabulate N (fun k1 => coeff Y k1 0) !!! k0)) !!! k)
                = sum_n N (fun j =>
                    sum_n N (fun k => coeff Y k 0 * coeff C k j)
                    * coeff Y j 0)).
  { rewrite (sum_n_ext N _
               (fun k => sum_n N (fun j => coeff Y k 0 * coeff C k j
                                           * coeff Y j 0))).
    - rewrite sum_n_swap. apply sum_n_ext. intros j Hj.
      rewrite <- sum_n_scal_r. reflexivity.
    - intros k Hk. rewrite !lookup_tabulate by exact Hk.
      rewrite <- sum_n_scal. apply sum_n_ext. intros j Hj.
      rewrite lookup_tabulate by exact Hj. lra. }
  rewrite Heq in Hq. lra.
Qed.

Lemma GaussianLogLikelihood_upper_bound_witness :
  exists v,
    GaussianLogLikelihood_call single_sample_gp = Returned [v]
    /\ v <= - 0.5 * ln (m_Determinant single_sample_gp)
            - INR (rows (ComputeLabelMatrix single_sample_gp) / 2)
              * ln (2 * PI).
Proof.
  apply (GaussianLogLikelihood_upper_bound single_sample_gp).
  - reflexivity.
  - cbn. lra.
  - split; [reflexivity|]. repeat constructor.
  - intros v Hv. destruct v as [|a [|]]; try discriminate.
    unfold dot, mul_vec. cbn. nra.
Defined.

End LikelihoodValueFacts.

(** ** [GetRandomVector] and the draw *)

Section RandomVectorFacts.
Import Eigen PosteriorProcessTest.

Lemma tabulate_app (n m : nat) (f : nat -> R) :
  tabulate (n + m) f = tabulate n f ++ tabulate m (fun i => f (n + i)%nat).
Proof.
  unfold tabulate. rewrite seq_app, fmap_app. f_equal.
  cbn [Nat.add].
  replace (seq n m) with (Nat.add n <$> seq 0 m)
    by (rewrite fmap_add_seq; f_equal; lia).
  rewrite <- list_fmap_compose. reflexivity.
Qed.

(** Two calls in a row hand out consecutive stretches of the deviates:
    the vector of [n] entries followed by the vector of [m] entries is
    the vector of [n + m] entries, and the source ends in the same
    state. *)
Theorem GetRandomVector_consecutive (n m : nat) (g : variate_generator) :
  GetRandomVector (n + m) g
  = (fst (GetRandomVector n g)
       ++ fst (GetRandomVector m (snd (GetRandomVector n g))),
     snd (GetRandomVector m (snd (GetRandomVector n g))))
  /\ length (fst (GetRandomVector n g)) = n
  /\ drawn (snd (GetRandomVector n g)) = (drawn g + n)%nat.
Proof.
  rewrite !GetRandomVector_spec. cbn [fst snd deviates drawn].
  split; [|split; [apply length_tabulate|reflexivity]].
  apply pair_equal_spec. split.
  - rewrite tabulate_app. f_equal.
    apply tabulate_ext. intros i _. f_equal. lia.
  - f_equal. lia.
Qed.

Lemma lookup_Zero (k i : nat) : Zero k !!! i = 0.
Proof.
  destruct (decide (i < k)%nat) as [Hi|Hi].
  - apply lookup_tabulate. exact Hi.
  - apply lookup_tabulate_ge. lia.
Qed.

Lemma lookup_mul_vec_zero (a : MatrixType) (w : VectorType) (i : nat) :
  (forall k, w !!! k = 0) -> mul_vec a w !!! i = 0.
Proof.
  intros Hw. unfold mul_vec.
  destruct (decide (i < rows a)%nat) as [Hi|Hi].
  - rewrite lookup_tabulate by exact Hi.
    apply sum_n_zero. intros k _. rewrite Hw. lra.
  - apply lookup_tabulate_ge. lia.
Qed.

(** A noise vector of zeros draws the mean itself, whatever the sizes of
    [rot] and [scl]. *)
Theorem sample_of_zero_noise
  (rot : MatrixType) (scl mean : VectorType) (k : nat) :
  sample rot scl (Zero k) mean = mean.
Proof.
  unfold sample, add_vec.
  apply vector_ext with (length mean); [apply length_tabulate|reflexivity|].
  intros i Hi. rewrite lookup_tabulate by exact Hi.
  rewrite lookup_mul_vec_zero; [lra|].
  intros j. unfold cwise_mul.
  destruct (decide (j < length scl)%nat) as [Hj|Hj].
  - rewrite lookup_tabulate by exact Hj. rewrite lookup_Zero. lra.
  - apply lookup_tabulate_ge. lia.
Qed.

End RandomVectorFacts.

(** ** The failure paths of the tests *)

Section FailurePathFacts.
Import Eigen PosteriorProcessTest Driver.

Lemma foldl_bind_Thrown {A : Type} (f : A -> outcome unit) (l : list A)
  (s : string) :
  foldl (fun (acc : outcome unit) i => bind acc (fun _ => f i)) (Thrown s) l
  = Thrown s.
Proof. induction l as [|i l IH]; [reflexivity|]. cbn [foldl bind]. exact IH. Qed.

(** A loop of checks returns exactly when every check returns, and
    otherwise throws what some check threw. *)
Lemma foldl_bind_outcome {A : Type} (f : A -> outcome unit) (l : list A) :
  (foldl (fun (acc : outcome unit) i => bind acc (fun _ => f i)) (Returned tt) l
   = Returned tt
   <-> Forall (fun i => f i = Returned tt) l)
  /\ (forall s,
        foldl (fun (acc : outcome unit) i => bind acc (fun _ => f i))
              (Returned tt) l = Thrown s ->
        exists i, i ∈ l /\ f i = Thrown s).
Proof.
  induction l as [|i l [IH1 IH2]].
  - split; [split; [constructor|reflexivity]|]. intros s H. discriminate.
  - cbn [foldl bind]. destruct (f i) as [[]|s'] eqn:E.
    + split.
      * rewrite IH1. split.
        -- intros H. constructor; assumption.
        -- intros H. inversion H. assumption.
      * intros s H. destruct (IH2 s H) as (j & Hj & Hf).
        exists j. split; [right; exact Hj|exact Hf].
    + rewrite foldl_bind_Thrown. split.
      * split; [discriminate|]. intros H. inversion H. congruence.
      * intros s H. injection H as <-. exists i. split; [left|exact E].
Qed.

Variable gp_call : VectorType -> VectorType -> outcome double.
Variable gp_GetCredibleInterval : VectorType -> outcome double.

Lemma Test1_body_cases (x : VectorType) :
  (Test1_body gp_call gp_GetCredibleInterval x = Returned tt
   <-> exists v ci, gp_call x x = Returned (Num v)
                    /\ gp_GetCredibleInterval x = Returned (Num ci)
                    /\ 0 <= v /\ 2 * sqrt v - ci = 0)
  /\ (forall s, Test1_body gp_call gp_GetCredibleInterval x = Thrown s ->
        s = "error in calculating credible interval."%string).
Proof.
  unfold Test1_body.
  destruct (gp_call x x) as [v|s1]; cbn [bind try_catch_rethrow];
    [|split; [|intros s H; injection H as <-; reflexivity];
      split; [discriminate|]; intros (v' & ci' & Hv & _); discriminate].
  destruct (gp_GetCredibleInterval x) as [ci|s2];
    cbn [bind try_catch_rethrow];
    [|split; [|intros s H; injection H as <-; reflexivity];
      split; [discriminate|]; intros (v' & ci' & _ & Hci & _); discriminate].
  cbv zeta.
  assert (Hthrow : forall c : double,
            double_ne c (Num 0) = true ->
            (try_catch_rethrow
               (if double_ne c (Num 0)
                then Thrown "credible interval not correct."
                else Returned tt)
               "error in calculating credible interval." = Returned tt
             <-> False)
            /\ (forall s,
                  try_catch_rethrow
                    (if double_ne c (Num 0)
                     then Thrown "credible interval not correct."
                     else Returned tt)
                    "error in calculating credible interval." = Thrown s ->
                  s = "error in calculating credible interval."%string)).
  { intros c ->. cbn [try_catch_rethrow]. split; [split; [discriminate|tauto]|].
    intros s H. injection H as <-. reflexivity. }
  destruct v as [v|]; cbn [std_sqrt].
  - destruct (Rlt_dec v 0) as [Hlt|Hge].
    + destruct (Hthrow (double_sub (double_mul (Num 2) NaN) ci) eq_refl)
        as [H1 H2].
      split; [|exact H2]. rewrite H1. split; [tauto|].
      intros (v' & ci' & Hv & _ & Hpos & _). injection Hv as <-. lra.
    + destruct ci as [ci|].
      * cbn [double_mul double_sub double_op double_ne].
        destruct (Req_dec_T (2 * sqrt v - ci) 0) as [Hc|Hc];
          cbn [try_catch_rethrow].
        -- split; [|intros s H; discriminate].
           split; [intros _; exists v, ci; repeat split; [lra|exact Hc]
                  |reflexivity].
        -- split; [|intros s H; injection H as <-; reflexivity].
           split; [discriminate|].
           intros (v' & ci' & Hv & Hci & _ & H0). injection Hv as <-.
           injection Hci as <-. contradiction.
      * destruct (Hthrow (double_sub (double_mul (Num 2) (Num (sqrt v))) NaN)
                    eq_refl) as [H1 H2].
        split; [|exact H2]. rewrite H1. split; [tauto|].
        intros (v' & ci' & _ & Hci & _). discriminate.
  - destruct (Hthrow (double_sub (double_mul (Num 2) NaN) ci) eq_refl)
      as [H1 H2].
    split; [|exact H2]. rewrite H1. split; [tauto|].
    intros (v' & ci' & Hv & _). discriminate.
Qed.


End FailurePathFacts.

(** ** [main] *)

Section MainFacts.
Import Eigen PosteriorProcessTest Driver.


End MainFacts.

(** ** The kernel matrix of [Test2] *)

Section KernelMatrixValueFacts.
Import Eigen PosteriorProcessTest Driver.

(** The loops of [Test2] call the engine on the upper triangle only and
    mirror each value: the matrix they fill is symmetric whether or not
    the covariance operator of the engine is, it holds the covariance of
    grid points [i <= j] at both [(i, j)] and [(j, i)], and the mean
    vector holds the first coordinate of the prediction at each grid
    point. *)
Theorem kernel_matrix_symmetric (gp_Predict : VectorType -> VectorType)
  (gp_call : VectorType -> VectorType -> R) (n : nat) :
  let mean := fst (kernel_matrix gp_Predict gp_call n) in
  let K := snd (kernel_matrix gp_Predict gp_call n) in
  length mean = n /\ shape n n K
  /\ (forall i, (i < n)%nat ->
        mean !!! i = gp_Predict (grid_point n i) !!! 0%nat)
  /\ (forall i j, (i <= j)%nat /\ (j < n)%nat ->
        coeff K i j = gp_call (grid_point n i) (grid_point n j)
        /\ coeff K j i = gp_call (grid_point n i) (grid_point n j)).
Proof.
  cbv zeta. rewrite kernel_matrix_spec. cbn [fst snd].
  split; [apply length_tabulate|]. split; [apply shape_tabulate2|]. split.
  - intros i Hi. rewrite lookup_tabulate by exact Hi. reflexivity.
  - intros i j [Hij Hj]. rewrite !coeff_tabulate2 by lia.
    rewrite (Nat.min_r j i), (Nat.max_l j i) by lia.
    rewrite Nat.min_l, Nat.max_r by lia. split; reflexivity.
Qed.

End KernelMatrixValueFacts.

(** ** The truncated decomposition *)

Section TruncationAlgebraFacts.
Import Eigen PosteriorProcessTest Driver.

Lemma demo_orthonormal_eigenvectors : orthonormal_eigenvectors demo_solver.
Proof.
  unfold orthonormal_eigenvectors. cbn.
  repeat f_equal; repeat case_decide; try lia; lra.
Qed.

Lemma demo_spectral_decomposition : spectral_decomposition demo_K demo_solver.
Proof. unfold spectral_decomposition. cbn. repeat f_equal; lra. Qed.

Lemma demo_sorted : Sorted Rle (eigenvalues demo_solver).
Proof. repeat constructor. cbn. lra. Qed.

Lemma shape_rot (n : nat) (K : MatrixType) (es : SelfAdjointEigenSolver) :
  shape n n K -> square_solver n es ->
  shape n (numComponentsToKeep es) (rot K es).
Proof.
  intros HK Hes. pose proof (kept_le n es Hes) as Hle.
  split; [apply (rows_rot n K es HK Hes)|].
  apply Forall_forall. intros row Hrow.
  apply list_elem_of_lookup_total_1 in Hrow as (a & Ha & <-).
  pose proof (rows_rot n K es HK Hes) as Hr. unfold rows in Hr.
  rewrite (row_rot n K es HK Hes a) by lia.
  rewrite length_take, length_reverse.
  rewrite (shape_row n n _ a (shape_eigenvectors n es Hes)) by lia.
  lia.
Qed.

(** The sizes of the truncated decomposition agree: with
    [c = numComponentsToKeep] at most the size [n] of the matrix, [rot]
    is [n x c], [scl] has [c] entries and [Q = rot * scl.asDiagonal()]
    is [n x c], for every output of the solver of the right size. *)
Theorem truncation_sizes_agree (n : nat) (K : MatrixType)
  (es : SelfAdjointEigenSolver) :
  shape n n K -> square_solver n es ->
  (numComponentsToKeep es <= n)%nat
  /\ shape n (numComponentsToKeep es) (rot K es)
  /\ length (scl es) = numComponentsToKeep es
  /\ shape n (numComponentsToKeep es) (Q K es).
Proof.
  intros HK Hes.
  split; [exact (kept_le n es Hes)|].
  split; [exact (shape_rot n K es HK Hes)|].
  split; [exact (length_scl es)|exact (shape_Q n K es HK Hes)].
Qed.

Lemma truncation_sizes_agree_witness :
  (numComponentsToKeep demo_solver <= 2)%nat
  /\ shape 2 (numComponentsToKeep demo_solver) (rot demo_K demo_solver)
  /\ length (scl demo_solver) = numComponentsToKeep demo_solver
  /\ shape 2 (numComponentsToKeep demo_solver) (Q demo_K demo_solver).
Proof.
  apply (truncation_sizes_agree 2 demo_K demo_solver).
  - exact demo_shape.
  - exact demo_square_solver.
Defined.

(** The retained eigenvectors are orthonormal: [rot^T rot] is the
    identity of size [numComponentsToKeep], for a solver that returns
    orthonormal eigenvectors. *)
Theorem rot_columns_orthonormal (n : nat) (K : MatrixType)
  (es : SelfAdjointEigenSolver) :
  shape n n K -> square_solver n es -> orthonormal_eigenvectors es ->
  mul (adjoint (rot K es)) (rot K es) = Identity (numComponentsToKeep es).
Proof.
  intros HK Hes Horth.
  pose proof (kept_le n es Hes) as Hle.
  set (c := numComponentsToKeep es) in *.
  pose proof (shape_rot n K es HK Hes) as Hrot. fold c in Hrot.
  destruct (decide (n = 0%nat)) as [->|Hn].
  - assert (Hc : c = 0%nat) by lia.
    destruct Hrot as [Hlen _]. destruct (rot K es); [|discriminate].
    rewrite Hc. reflexivity.
  - pose proof (shape_adjoint n c _ Hrot ltac:(lia)) as Hadj.
    destruct (decide (c = 0%nat)) as [Hc|Hc].
    + destruct Hadj as [Hlen _]. rewrite Hc in *.
      unfold mul, rows. rewrite Hlen. reflexivity.
    + apply shape_ext with c c.
      * unfold mul. rewrite (proj1 Hadj : rows _ = c).
        rewrite (cols_shape n c _ Hrot) by lia. apply shape_tabulate2.
      * apply shape_tabulate2.
      * intros p q Hp Hq. unfold mul.
        rewrite (proj1 Hadj : rows _ = c).
        rewrite (cols_shape n c _ Hrot), (cols_shape c n _ Hadj) by lia.
        rewrite coeff_tabulate2 by assumption.
        rewrite coeff_Identity by assumption.
        rewrite (sum_n_ext n _
                   (fun a => coeff (eigenvectors es) a (n - 1 - p)
                             * coeff (eigenvectors es) a (n - 1 - q))).
        -- rewrite (orthonormal_pointwise n es Hes Horth) by lia.
           destruct (decide (p = q)) as [->|Hne].
           ++ rewrite decide_True by reflexivity. reflexivity.
           ++ rewrite decide_False by lia. reflexivity.
        -- intros a Ha.
           rewrite (coeff_adjoint es n c) by assumption.
           rewrite !(coeff_rot n K es HK Hes) by assumption. reflexivity.
Qed.

Lemma rot_columns_orthonormal_witness :
  mul (adjoint (rot demo_K demo_solver)) (rot demo_K demo_solver)
  = Identity (numComponentsToKeep demo_solver).
Proof.
  apply (rot_columns_orthonormal 2 demo_K demo_solver).
  - exact demo_shape.
  - exact demo_square_solver.
  - exact demo_orthonormal_eigenvectors.
Defined.

Lemma sum_n_term_le (n m : nat) (f : nat -> R) :
  (forall k, (k < n)%nat -> 0 <= f k) -> (m < n)%nat -> f m <= sum_n n f.
Proof.
  intros Hpos Hm. rewrite <- (sum_n_delta n m f Hm).
  apply sum_n_le. intros k Hk. specialize (Hpos k Hk).
  destruct (decide (m = k)); lra.
Qed.

(** The error the accuracy check of [Test2] measures is the Euclidean
    norm of the eigenvalues the truncation discards: for an orthonormal
    decomposition with increasing eigenvalues,
    [|| Q Q^T - K ||] is the square root of the sum of their squares. *)
Theorem err_is_norm_of_discarded_eigenvalues (n : nat) (K : MatrixType)
  (es : SelfAdjointEigenSolver) :
  shape n n K -> square_solver n es -> Sorted Rle (eigenvalues es) ->
  orthonormal_eigenvectors es -> spectral_decomposition K es ->
  err K es
  = sqrt (sum_n (n - numComponentsToKeep es)
            (fun p => eigenvalues es !!! p * eigenvalues es !!! p)).
Proof.
  intros HK Hes Hsorted Horth Hdec. unfold err, norm.
  rewrite (squaredNorm_residual n K es HK Hes Hsorted Horth Hdec).
  reflexivity.
Qed.

Lemma err_is_norm_of_discarded_eigenvalues_witness :
  err demo_K demo_solver
  = sqrt (sum_n (2 - numComponentsToKeep demo_solver)
            (fun p => eigenvalues demo_solver !!! p
                      * eigenvalues demo_solver !!! p)).
Proof.
  apply (err_is_norm_of_discarded_eigenvalues 2 demo_K demo_solver).
  - exact demo_shape.
  - exact demo_square_solver.
  - exact demo_sorted.
  - exact demo_orthonormal_eigenvectors.
  - exact demo_spectral_decomposition.
Defined.

(** A matrix that is not positive semidefinite by more than the
    tolerance is rejected: when the solver returns an orthonormal
    decomposition with increasing eigenvalues and some eigenvalue is
    below [-1e-8], the accuracy check of [Test2] throws. *)
Theorem negative_eigenvalue_fails_accuracy_check
  (eigenSolver : MatrixType -> SelfAdjointEigenSolver)
  (show_double : R -> string) (n : nat) (K : MatrixType) (m : nat) :
  shape n n K -> square_solver n (eigenSolver K) ->
  Sorted Rle (eigenvalues (eigenSolver K)) ->
  orthonormal_eigenvectors (eigenSolver K) ->
  spectral_decomposition K (eigenSolver K) ->
  (m < n)%nat -> eigenvalues (eigenSolver K) !!! m < - 1e-8 ->
  decomposition_check eigenSolver show_double K
  = Thrown (String.append "eigen decomposition not accurate enough. (error: "
              (String.append (show_double (err K (eigenSolver K))) ")")).
Proof.
  intros HK Hes Hsorted Horth Hdec Hm Hneg.
  set (es := eigenSolver K) in *.
  pose proof (kept_le n es Hes) as Hle.
  assert (Hdrop : (m < n - numComponentsToKeep es)%nat).
  { destruct (decide (m < n - numComponentsToKeep es)%nat) as [H|H];
      [exact H|exfalso].
    pose proof (kept_eigenvalue_gt n es Hes Hsorted (n - 1 - m)
                  ltac:(lia)) as Hgt.
    replace (n - 1 - (n - 1 - m))%nat with m in Hgt by lia. lra. }
  assert (Herr : err K es > 1e-8).
  { unfold err, norm.
    rewrite (squaredNorm_residual n K es HK Hes Hsorted Horth Hdec).
    assert (Hterm : eigenvalues es !!! m * eigenvalues es !!! m
                    <= sum_n (n - numComponentsToKeep es)
                         (fun p => eigenvalues es !!! p * eigenvalues es !!! p)).
    { apply (sum_n_term_le _ m
               (fun p => eigenvalues es !!! p * eigenvalues es !!! p));
        [|exact Hdrop].
      intros k _. apply Rle_0_sqr. }
    set (S := sum_n _ _) in *. set (l := eigenvalues es !!! m) in *.
    rewrite <- (sqrt_square 1e-8) by lra.
    apply sqrt_lt_1; nra. }
  unfold decomposition_check. cbv zeta. fold es.
  destruct (Rgt_dec (err K es) 1e-8) as [_|Hn]; [reflexivity|contradiction].
Qed.

Lemma negative_eigenvalue_fails_accuracy_check_witness :
  decomposition_check (fun _ => {| eigenvalues := [-1]; eigenvectors := [[1]] |})
    (fun _ => EmptyString) [[-1]]
  = Thrown "eigen decomposition not accurate enough. (error: )".
Proof.
  apply (negative_eigenvalue_fails_accuracy_check
           (fun _ => {| eigenvalues := [-1]; eigenvectors := [[1]] |})
           (fun _ => EmptyString) 1 [[-1]] 0).
  - split; [reflexivity|]. repeat constructor.
  - split; [reflexivity|]. split; [reflexivity|]. repeat constructor.
  - repeat constructor.
  - unfold orthonormal_eigenvectors. cbn.
    repeat f_equal; repeat case_decide; try lia; lra.
  - unfold spectral_decomposition. cbn. repeat f_equal; lra.
  - lia.
  - change (-1 < - 1e-8). lra.
Defined.

End TruncationAlgebraFacts.

(** ** The landmarks of [Test2] *)

Section Test2BodyFacts.
Import Eigen PosteriorProcessTest Driver.

Lemma INR_50 : INR 50 = 50.
Proof. rewrite INR_IZR_INZ. reflexivity. Qed.

Lemma grid_coordinate_iff (t k : nat) :
  INR t * 5 / INR 50 = INR k <-> t = (10 * k)%nat.
Proof.
  rewrite INR_50. split.
  - intros H. apply INR_eq. rewrite mult_INR.
    replace (INR 10) with 10 by (rewrite INR_IZR_INZ; reflexivity). lra.
  - intros ->. rewrite mult_INR.
    replace (INR 10) with 10 by (rewrite INR_IZR_INZ; reflexivity). lra.
Qed.

(** The grid indices [Test2] inspects after each draw are exactly the
    indices of the 50-point grid over [0, 5) whose grid point is one of
    the four training inputs added to the engine. *)
Theorem landmarks_are_training_inputs (t : nat) :
  grid_point 50 t ∈ (fst <$> Test2_samples) <-> t ∈ landmarks.
Proof.
  unfold grid_point, landmarks.
  change (fst <$> Test2_samples) with [[1]; [1 * 2]; [1 * 3]; [1 * 4]].
  rewrite !elem_of_cons, !elem_of_nil.
  pose proof (grid_coordinate_iff t 1) as H1.
  pose proof (grid_coordinate_iff t 2) as H2.
  pose proof (grid_coordinate_iff t 3) as H3.
  pose proof (grid_coordinate_iff t 4) as H4.
  change (INR 1) with 1 in H1.
  replace (INR 2) with (1 * 2) in H2 by (cbn; lra).
  replace (INR 3) with (1 * 3) in H3 by (cbn; lra).
  replace (INR 4) with (1 * 4) in H4 by (cbn; lra).
  split.
  - intros [H|[H|[H|[H|[]]]]]; injection H as H.
    + left. apply H1, H.
    + right. left. apply H2, H.
    + right. right. left. apply H3, H.
    + right. right. right. left. apply H4, H.
  - intros [H|[H|[H|[H|[]]]]].
    + left. f_equal. apply H1. lia.
    + right. left. f_equal. apply H2. lia.
    + right. right. left. f_equal. apply H3. lia.
    + right. right. right. left. f_equal. apply H4. lia.
Qed.

Lemma adjoint_Identity (n : nat) : adjoint (Identity n) = Identity n.
Proof.
  destruct (decide (n = 0%nat)) as [->|Hn]; [reflexivity|].
  unfold adjoint. unfold Identity at 1 2.
  rewrite rows_tabulate2, cols_tabulate2 by lia.
  apply shape_ext with n n; try apply shape_tabulate2.
  intros i j Hi Hj. rewrite coeff_tabulate2 by assumption.
  rewrite !coeff_Identity by assumption.
  destruct (decide (j = i)) as [->|Hne].
  - rewrite decide_True by reflexivity. reflexivity.
  - rewrite decide_False by lia. reflexivity.
Qed.

Lemma mul_Identity (n : nat) : mul (Identity n) (Identity n) = Identity n.
Proof.
  destruct (decide (n = 0%nat)) as [->|Hn]; [reflexivity|].
  unfold mul. unfold Identity at 1 2 3.
  rewrite rows_tabulate2, !cols_tabulate2 by lia.
  apply shape_ext with n n; try apply shape_tabulate2.
  intros i j Hi Hj. rewrite coeff_tabulate2 by assumption.
  rewrite (sum_n_ext n _
             (fun k => (if decide (i = k) then 1 else 0)
                       * coeff (Identity n) k j)).
  - rewrite sum_n_delta by exact Hi. reflexivity.
  - intros k Hk. rewrite (coeff_Identity n i k) by assumption. reflexivity.
Qed.

Lemma null_square_solver : square_solver 50 null_solver.
Proof.
  split; [apply length_tabulate|]. apply (shape_tabulate2 50 50).
Qed.

End Test2BodyFacts.

Section Test2NoiseFacts.
Import Eigen PosteriorProcessTest Driver.

Lemma null_orthonormal_rows : orthonormal_rows null_solver.
Proof.
  unfold orthonormal_rows, null_solver. cbn [eigenvalues eigenvectors].
  rewrite adjoint_Identity, mul_Identity. unfold Zero.
  rewrite length_tabulate. reflexivity.
Qed.

Lemma null_eigen_equation : eigen_equation (Zero2 50 50) null_solver.
Proof.
  unfold eigen_equation, null_solver. cbn [eigenvalues eigenvectors].
  unfold mul, mul_diag. unfold Identity at 1 2, Zero2 at 1 2, Zero at 1.
  rewrite length_tabulate, !rows_tabulate2, !cols_tabulate2 by lia.
  apply shape_ext with 50%nat 50%nat; try apply shape_tabulate2.
  intros i j Hi Hj. rewrite !coeff_tabulate2 by assumption.
  rewrite lookup_Zero, Rmult_0_r.
  apply sum_n_zero. intros k Hk. unfold Zero2.
  rewrite coeff_tabulate2 by assumption. lra.
Qed.

(** In [Test2] the noise vector and [scl] never have the same size: for
    an engine whose covariance vanishes between a landmark and every
    grid point, and a solver that returns eigenvectors with orthonormal
    rows, at least one component is discarded, so the 50 deviates of a
    draw meet fewer than 50 entries of [scl] in the coefficient-wise
    product. *)
Theorem Test2_noise_longer_than_scl
  (eigenSolver : MatrixType -> SelfAdjointEigenSolver)
  (gp_Predict : VectorType -> VectorType)
  (gp_call : VectorType -> VectorType -> R) (g : variate_generator) :
  (forall t b, t ∈ landmarks -> (b < 50)%nat ->
     gp_call (grid_point 50 t) (grid_point 50 b) = 0
     /\ gp_call (grid_point 50 b) (grid_point 50 t) = 0) ->
  let K := snd (kernel_matrix gp_Predict gp_call 50) in
  square_solver 50 (eigenSolver K) ->
  eigen_equation K (eigenSolver K) ->
  orthonormal_rows (eigenSolver K) ->
  (numComponentsToKeep (eigenSolver K) < 50)%nat
  /\ (length (scl (eigenSolver K)) < length (fst (draw_noise 50 g)))%nat.
Proof.
  intros Hland K0. subst K0.
  rewrite (kernel_matrix_spec gp_Predict gp_call 50). cbn [snd].
  set (K := tabulate2 50 50 _). intros Hes Heq Hrows.
  assert (HK : shape 50 50 K) by apply shape_tabulate2.
  assert (Hrow : forall b, (b < 50)%nat -> coeff K 10 b = 0).
  { intros b Hb. unfold K. rewrite coeff_tabulate2 by lia.
    destruct (Hland 10%nat b ltac:(left) Hb) as [H1 H2].
    destruct (Nat.le_ge_cases 10 b) as [Hle|Hle].
    - rewrite Nat.min_l, Nat.max_r by exact Hle. exact H1.
    - rewrite Nat.min_r, Nat.max_l by exact Hle. exact H2. }
  pose proof (zero_row_discards 50 K (eigenSolver K) HK Hes Heq Hrows 10
                ltac:(lia) Hrow) as Hlt.
  split; [exact Hlt|].
  rewrite draw_noise_length, length_scl. exact Hlt.
Qed.

Lemma Test2_noise_longer_than_scl_witness :
  (numComponentsToKeep null_solver < 50)%nat
  /\ (length (scl null_solver)
      < length (fst (draw_noise 50 {| deviates := fun k => INR k;
                                      drawn := 0 |})))%nat.
Proof.
  apply (Test2_noise_longer_than_scl (fun _ => null_solver)
           (fun x => x) (fun _ _ => 0)
           {| deviates := fun k => INR k; drawn := 0 |}).
  - intros t b _ _. split; reflexivity.
  - exact null_square_solver.
  - rewrite (kernel_matrix_spec (fun x => x) (fun _ _ => 0) 50). cbn [snd].
    exact null_eigen_equation.
  - exact null_orthonormal_rows.
Defined.

End Test2NoiseFacts.

(** ** [Test2] with and without Eigen's assertions *)

Section Test2RunFacts.
Import Eigen PosteriorProcessTest Driver.

Lemma draw_noise_spec (n : nat) (g : variate_generator) :
  draw_noise n g
  = (tabulate n (fun i => deviates g (drawn g + i)%nat),
     {| deviates := deviates g; drawn := (drawn g + n)%nat |}).
Proof. apply GetRandomVector_spec. Qed.

(** Without the assertion every draw is made; when the draws agree with
    the mean at the landmarks, the loop returns after all of them. *)
Lemma sampling_run_passes (draws n : nat) (rot : MatrixType)
  (scl mean : VectorType) (g : variate_generator) :
  (forall z t, t ∈ landmarks -> sample rot scl z mean !!! t = mean !!! t) ->
  sampling_run true draws n rot scl mean g
  = (Completes (Returned tt),
     {| deviates := deviates g; drawn := (drawn g + draws * n)%nat |}).
Proof.
  intros H. revert g. induction draws as [|k IH]; intros g.
  - cbn [sampling_run]. destruct g as [d c]. cbn [deviates drawn].
    do 2 f_equal. lia.
  - cbn [sampling_run]. unfold checked_draw. rewrite draw_noise_spec.
    cbn [orb]. rewrite landmarks_check_passes by (intros t Ht; apply H, Ht).
    rewrite IH. cbn [deviates drawn]. do 2 f_equal. lia.
Qed.

(** With the assertion, a noise vector longer than [scl] aborts the run
    at the first draw, after its deviates are taken. *)
Lemma sampling_run_aborts (k n : nat) (rot : MatrixType)
  (scl mean : VectorType) (g : variate_generator) :
  length scl <> n ->
  sampling_run false (S k) n rot scl mean g
  = (Aborts, {| deviates := deviates g; drawn := (drawn g + n)%nat |}).
Proof.
  intros Hne. cbn [sampling_run]. unfold checked_draw.
  rewrite draw_noise_spec. cbn [orb].
  rewrite bool_decide_eq_false_2; [reflexivity|].
  rewrite length_tabulate. congruence.
Qed.

Lemma landmarks_check_cases (r mean : VectorType) :
  landmarks_check r mean = Returned tt
  \/ landmarks_check r mean
     = Thrown "samples do not corresponds to the landmarks.".
Proof. unfold landmarks_check. destruct (_ || _); [right|left]; reflexivity. Qed.

(** However the loop ends, the deviates are those of the generator it
    started with, and it ends in one of three ways: it returns after
    all the draws, it throws the landmark text after some draw, or, only
    with the assertion and operands of different sizes, it is aborted
    at the first draw. *)
Lemma sampling_run_cases (NDEBUG : bool) (draws n : nat) (rot : MatrixType)
  (scl mean : VectorType) (g : variate_generator) :
  let result := sampling_run NDEBUG draws n rot scl mean g in
  deviates (snd result) = deviates g
  /\ ((fst result = Completes (Returned tt)
       /\ drawn (snd result) = (drawn g + draws * n)%nat)
      \/ (fst result
          = Completes (Thrown "samples do not corresponds to the landmarks.")
          /\ exists k, (0 < k <= draws)%nat
                       /\ drawn (snd result) = (drawn g + k * n)%nat)
      \/ (fst result = Aborts /\ NDEBUG = false /\ length scl <> n
          /\ (0 < draws)%nat /\ drawn (snd result) = (drawn g + n)%nat)).
Proof.
  cbv zeta. revert g. induction draws as [|k IH]; intros g.
  - cbn [sampling_run fst snd]. split; [reflexivity|]. left.
    split; [reflexivity|lia].
  - cbn [sampling_run]. unfold checked_draw. rewrite draw_noise_spec.
    set (z := tabulate n _).
    assert (Hz : length z = n) by apply length_tabulate.
    destruct (NDEBUG || bool_decide (length z = length scl)) eqn:E.
    + destruct (landmarks_check_cases (sample rot scl z mean) mean)
        as [Hl|Hl]; rewrite Hl.
      * destruct (IH {| deviates := deviates g;
                        drawn := (drawn g + n)%nat |}) as [Hd Hc].
        cbn [deviates drawn] in Hd, Hc. split; [exact Hd|].
        destruct Hc as [[H1 H2]|[(H1 & j & Hj & H2)|(H1 & H2 & H3 & H4 & H5)]].
        -- left. split; [exact H1|]. rewrite H2. lia.
        -- right. left. split; [exact H1|]. exists (S j).
           split; [lia|]. rewrite H2. lia.
        -- exfalso. apply orb_true_iff in E as [E|E]; [congruence|].
           apply bool_decide_eq_true_1 in E. congruence.
      * cbn [fst snd deviates drawn]. split; [reflexivity|]. right. left.
        split; [reflexivity|]. exists 1%nat. split; lia.
    + apply orb_false_iff in E as [E1 E2].
      apply bool_decide_eq_false_1 in E2.
      cbn [fst snd deviates drawn]. split; [reflexivity|]. right. right.
      split; [reflexivity|]. split; [exact E1|].
      split; [congruence|]. split; [lia|reflexivity].
Qed.

Lemma grid_point_inj (a b : nat) :
  grid_point 50 a = grid_point 50 b -> a = b.
Proof.
  unfold grid_point. intros H.
  pose proof (f_equal (fun l : VectorType => l !!! 0%nat) H) as H'.
  change (INR a * 5 / INR 50 = INR b * 5 / INR 50) in H'.
  rewrite INR_50 in H'. apply INR_eq. lra.
Qed.

Lemma grid_point_beyond (a : nat) :
  4 < grid_point 50 a !!! 0%nat <-> (40 < a)%nat.
Proof.
  unfold grid_point.
  assert (H40 : INR 40 = 40) by (rewrite INR_IZR_INZ; reflexivity).
  change ([INR a * 5 / INR 50] !!! 0%nat) with (INR a * 5 / INR 50).
  rewrite INR_50. split.
  - intros H. apply INR_lt. lra.
  - intros H. apply lt_INR in H. lra.
Qed.

Lemma step_kernel_matrix (gp_Predict : VectorType -> VectorType) :
  snd (kernel_matrix gp_Predict step_covariance 50) = step_K.
Proof.
  rewrite kernel_matrix_spec. cbn [snd]. unfold step_K.
  apply shape_ext with 50%nat 50%nat; try apply shape_tabulate2.
  intros a b Ha Hb. rewrite !coeff_tabulate2 by assumption.
  unfold step_covariance.
  destruct (decide (a = b /\ (40 < a)%nat)) as [[-> H]|H].
  - rewrite Nat.min_id, Nat.max_id. rewrite decide_True; [reflexivity|].
    split; [reflexivity|]. apply grid_point_beyond, H.
  - rewrite decide_False; [reflexivity|]. intros [Heq Hgt]. apply H.
    apply grid_point_inj in Heq. apply grid_point_beyond in Hgt. lia.
Qed.

Lemma step_covariance_at_landmark (t b : nat) :
  t ∈ landmarks -> (b < 50)%nat ->
  step_covariance (grid_point 50 t) (grid_point 50 b) = 0
  /\ step_covariance (grid_point 50 b) (grid_point 50 t) = 0.
Proof.
  intros Ht Hb.
  assert (Hle : (t <= 40)%nat).
  { unfold landmarks in Ht.
    repeat (apply elem_of_cons in Ht as [->|Ht]; [lia|]).
    apply elem_of_nil in Ht. contradiction. }
  unfold step_covariance. split.
  - rewrite decide_False; [reflexivity|]. intros [_ H].
    apply grid_point_beyond in H. lia.
  - rewrite decide_False; [reflexivity|]. intros [Heq H].
    rewrite Heq in H. apply grid_point_beyond in H. lia.
Qed.

Lemma Sorted_tabulate (n : nat) (f : nat -> R) :
  (forall i, f i <= f (S i)) -> Sorted Rle (tabulate n f).
Proof.
  intros Hf. unfold tabulate. generalize 0%nat.
  induction n as [|n IH]; intros a; [constructor|].
  cbn [seq fmap list_fmap]. constructor; [apply IH|].
  destruct n; constructor. apply Hf.
Qed.

Lemma step_square_solver : square_solver 50 step_solver.
Proof.
  split; [apply length_tabulate|]. apply (shape_tabulate2 50 50).
Qed.

Lemma step_sorted : Sorted Rle (eigenvalues step_solver).
Proof.
  apply Sorted_tabulate. intros i.
  destruct (decide (40 < i)%nat), (decide (40 < S i)%nat); try lra; lia.
Qed.

(** Nine components are retained, so every draw uses nine deviates. *)
Lemma step_numComponentsToKeep : numComponentsToKeep step_solver = 9%nat.
Proof.
  rewrite numComponentsToKeep_count. unfold step_solver, tabulate.
  cbn [eigenvalues].
  rewrite (filter_key_fmap (fun m => if decide (40 < m)%nat then 1 else 0)).
  rewrite length_fmap.
  rewrite (list_filter_iff _ (fun m => (40 < m)%nat)).
  - reflexivity.
  - intros m. cbv beta. destruct (decide (40 < m)%nat) as [Hm|Hm].
    + split; intros _; [exact Hm|lra].
    + split; intros H; [lra|contradiction].
Qed.

Lemma step_orthonormal_eigenvectors : orthonormal_eigenvectors step_solver.
Proof.
  unfold orthonormal_eigenvectors, step_solver.
  cbn [eigenvalues eigenvectors].
  rewrite adjoint_Identity, mul_Identity, length_tabulate. reflexivity.
Qed.

Lemma step_orthonormal_rows : orthonormal_rows step_solver.
Proof.
  unfold orthonormal_rows, step_solver. cbn [eigenvalues eigenvectors].
  rewrite adjoint_Identity, mul_Identity, length_tabulate. reflexivity.
Qed.

Lemma step_spectral_decomposition : spectral_decomposition step_K step_solver.
Proof.
  unfold spectral_decomposition, step_solver, step_K.
  cbn [eigenvalues eigenvectors]. rewrite adjoint_Identity.
  unfold mul, mul_diag. unfold Identity at 1 2 3.
  rewrite length_tabulate, !rows_tabulate2, !cols_tabulate2 by lia.
  apply shape_ext with 50%nat 50%nat; try apply shape_tabulate2.
  intros a b Ha Hb. rewrite !coeff_tabulate2 by assumption.
  rewrite (sum_n_ext 50 _
             (fun k => (if decide (a = k) then 1 else 0)
                       * ((if decide (40 < k)%nat then 1 else 0)
                          * (if decide (k = b) then 1 else 0)))).
  - rewrite sum_n_delta by exact Ha.
    destruct (decide (a = b /\ (40 < a)%nat)) as [[-> H]|H].
    + rewrite !decide_True by (reflexivity || exact H). lra.
    + destruct (decide (40 < a)%nat), (decide (a = b)); try lra.
      exfalso. apply H. split; assumption.
  - intros k Hk. unfold Identity. rewrite !coeff_tabulate2 by assumption.
    rewrite lookup_tabulate by assumption. lra.
Qed.

Lemma step_positive_semidefinite : positive_semidefinite step_K.
Proof.
  intros v Hv. unfold dot.
  replace 0 with (sum_n (length v) (fun _ => 0))
    by (apply sum_n_zero; reflexivity).
  apply sum_n_le. intros a Ha.
  assert (Hr : rows step_K = 50%nat) by apply rows_tabulate2.
  assert (Hc : cols step_K = 50%nat) by (apply cols_tabulate2; lia).
  rewrite Hr in Hv. rewrite Hv in Ha.
  unfold mul_vec. rewrite Hr, Hc, lookup_tabulate by exact Ha.
  rewrite (sum_n_ext 50 _
             (fun k => (if decide (a = k) then 1 else 0)
                       * ((if decide (40 < a)%nat then 1 else 0) * v !!! k))).
  - rewrite sum_n_delta by exact Ha.
    destruct (decide (40 < a)%nat); nra.
  - intros k Hk. unfold step_K. rewrite coeff_tabulate2 by assumption.
    destruct (decide (a = k /\ (40 < a)%nat)) as [[-> H]|H].
    + rewrite !decide_True by (reflexivity || exact H). lra.
    + destruct (decide (a = k)), (decide (40 < a)%nat); try lra.
      exfalso. apply H. split; assumption.
Qed.

(** The accuracy check passes and the rows of the matrix at the
    landmarks vanish, for an engine whose covariance vanishes between a
    landmark and every grid point. *)
Lemma Test2_preconditions
  (eigenSolver : MatrixType -> SelfAdjointEigenSolver)
  (show_double : R -> string) (gp_Predict : VectorType -> VectorType)
  (gp_call : VectorType -> VectorType -> R) :
  (forall t b, t ∈ landmarks -> (b < 50)%nat ->
     gp_call (grid_point 50 t) (grid_point 50 b) = 0
     /\ gp_call (grid_point 50 b) (grid_point 50 t) = 0) ->
  let K := snd (kernel_matrix gp_Predict gp_call 50) in
  positive_semidefinite K ->
  square_solver 50 (eigenSolver K) ->
  Sorted Rle (eigenvalues (eigenSolver K)) ->
  orthonormal_eigenvectors (eigenSolver K) ->
  spectral_decomposition K (eigenSolver K) ->
  shape 50 50 K
  /\ eigen_equation K (eigenSolver K)
  /\ decomposition_check eigenSolver show_double K = Returned tt
  /\ forall t, t ∈ landmarks ->
       (t < 50)%nat /\ forall b, (b < 50)%nat -> coeff K t b = 0.
Proof.
  intros Hland K0. subst K0.
  rewrite (kernel_matrix_spec gp_Predict gp_call 50). cbn [fst snd].
  set (K := tabulate2 50 50 _).
  intros Hpsd Hes Hsorted Horth Hdec.
  assert (HK : shape 50 50 K) by apply shape_tabulate2.
  split; [exact HK|]. split.
  { apply (spectral_eigen_equation 50 K (eigenSolver K)); assumption. }
  split.
  { unfold decomposition_check. cbv zeta.
    pose proof (err_below_tolerance 50 K (eigenSolver K) HK Hes Hsorted Horth
                  Hdec ltac:(lia) Hpsd) as Herr.
    destruct (Rgt_dec (err K (eigenSolver K)) 1e-8) as [Hgt|_];
      [lra|reflexivity]. }
  intros t Ht.
  assert (Hlt : (t < 50)%nat).
  { unfold landmarks in Ht.
    repeat (apply elem_of_cons in Ht as [->|Ht]; [lia|]).
    apply elem_of_nil in Ht. contradiction. }
  split; [exact Hlt|].
  intros b Hb. unfold K. rewrite coeff_tabulate2 by assumption.
  destruct (Hland t b Ht Hb) as [H1 H2].
  destruct (Nat.le_ge_cases t b) as [Hle|Hle].
  - rewrite Nat.min_l, Nat.max_r by exact Hle. exact H1.
  - rewrite Nat.min_r, Nat.max_l by exact Hle. exact H2.
Qed.

(** In a build with Eigen's assertions compiled out, [Test2] passes for
    every engine whose covariance vanishes between a landmark and every
    grid point and whose covariance matrix over the grid is positive
    semidefinite, whatever its mean and whatever the deviates, when the
    eigensolver returns an orthonormal decomposition with increasing
    eigenvalues: it makes its ten draws of 50 deviates and returns. *)
Theorem Test2_body_completes
  (eigenSolver : MatrixType -> SelfAdjointEigenSolver)
  (show_double : R -> string) (gp_Predict : VectorType -> VectorType)
  (gp_call : VectorType -> VectorType -> R) (g : variate_generator) :
  (forall t b, t ∈ landmarks -> (b < 50)%nat ->
     gp_call (grid_point 50 t) (grid_point 50 b) = 0
     /\ gp_call (grid_point 50 b) (grid_point 50 t) = 0) ->
  let K := snd (kernel_matrix gp_Predict gp_call 50) in
  positive_semidefinite K ->
  square_solver 50 (eigenSolver K) ->
  Sorted Rle (eigenvalues (eigenSolver K)) ->
  orthonormal_eigenvectors (eigenSolver K) ->
  spectral_decomposition K (eigenSolver K) ->
  Test2_body true eigenSolver show_double gp_Predict gp_call g
  = (Completes (Returned tt),
     {| deviates := deviates g; drawn := (drawn g + 500)%nat |}).
Proof.
  intros Hland K0 Hpsd Hes Hsorted Horth Hdec.
  destruct (Test2_preconditions eigenSolver show_double gp_Predict gp_call
              Hland Hpsd Hes Hsorted Horth Hdec)
    as (HK & Heq & Hcheck & Hrow).
  subst K0. unfold Test2_body. cbv zeta.
  destruct (kernel_matrix gp_Predict gp_call 50) as [mean K] eqn:E.
  cbn [snd] in *. rewrite Hcheck.
  assert (Hmean : length mean = 50%nat).
  { rewrite (kernel_matrix_spec gp_Predict gp_call 50) in E.
    injection E as <- _. apply length_tabulate. }
  rewrite sampling_run_passes; [reflexivity|].
  intros z t Ht. destruct (Hrow t Ht) as [Hlt Hzero].
  apply (sample_at_zero_row 50 K (eigenSolver K) HK Hes z mean t);
    assumption.
Qed.

Lemma Test2_body_completes_witness :
  Test2_body true (fun _ => step_solver) (fun _ => EmptyString)
    (fun x => x) step_covariance {| deviates := fun k => INR k; drawn := 0 |}
  = (Completes (Returned tt), {| deviates := fun k => INR k; drawn := 500 |}).
Proof.
  apply (Test2_body_completes (fun _ => step_solver) (fun _ => EmptyString)
           (fun x => x) step_covariance
           {| deviates := fun k => INR k; drawn := 0 |}).
  - exact step_covariance_at_landmark.
  - rewrite step_kernel_matrix. exact step_positive_semidefinite.
  - exact step_square_solver.
  - exact step_sorted.
  - exact step_orthonormal_eigenvectors.
  - rewrite step_kernel_matrix. exact step_spectral_decomposition.
Defined.

(** In a build with Eigen's assertions, [Test2] cannot pass: for every
    such engine, and an eigensolver that returns an orthogonal
    decomposition with increasing eigenvalues, the accuracy check
    passes, the 50 deviates of the first draw are taken, and the
    coefficient-wise product of the noise vector with the shorter [scl]
    aborts the process. *)
Theorem Test2_body_aborts_with_assertions
  (eigenSolver : MatrixType -> SelfAdjointEigenSolver)
  (show_double : R -> string) (gp_Predict : VectorType -> VectorType)
  (gp_call : VectorType -> VectorType -> R) (g : variate_generator) :
  (forall t b, t ∈ landmarks -> (b < 50)%nat ->
     gp_call (grid_point 50 t) (grid_point 50 b) = 0
     /\ gp_call (grid_point 50 b) (grid_point 50 t) = 0) ->
  let K := snd (kernel_matrix gp_Predict gp_call 50) in
  positive_semidefinite K ->
  square_solver 50 (eigenSolver K) ->
  Sorted Rle (eigenvalues (eigenSolver K)) ->
  orthonormal_eigenvectors (eigenSolver K) ->
  orthonormal_rows (eigenSolver K) ->
  spectral_decomposition K (eigenSolver K) ->
  Test2_body false eigenSolver show_double gp_Predict gp_call g
  = (Aborts, {| deviates := deviates g; drawn := (drawn g + 50)%nat |}).
Proof.
  intros Hland K0 Hpsd Hes Hsorted Horth Hrows Hdec.
  destruct (Test2_preconditions eigenSolver show_double gp_Predict gp_call
              Hland Hpsd Hes Hsorted Horth Hdec)
    as (HK & Heq & Hcheck & Hrow).
  subst K0. unfold Test2_body. cbv zeta.
  destruct (kernel_matrix gp_Predict gp_call 50) as [mean K] eqn:E.
  cbn [snd] in *. rewrite Hcheck.
  apply sampling_run_aborts. rewrite length_scl.
  destruct (Hrow 10%nat ltac:(left)) as [Hlt Hzero].
  pose proof (zero_row_discards 50 K (eigenSolver K) HK Hes Heq Hrows 10
                Hlt Hzero). lia.
Qed.

Lemma Test2_body_aborts_with_assertions_witness :
  Test2_body false (fun _ => step_solver) (fun _ => EmptyString)
    (fun x => x) step_covariance {| deviates := fun k => INR k; drawn := 0 |}
  = (Aborts, {| deviates := fun k => INR k; drawn := 50 |}).
Proof.
  apply (Test2_body_aborts_with_assertions
           (fun _ => step_solver) (fun _ => EmptyString)
           (fun x => x) step_covariance
           {| deviates := fun k => INR k; drawn := 0 |}).
  - exact step_covariance_at_landmark.
  - rewrite step_kernel_matrix. exact step_positive_semidefinite.
  - exact step_square_solver.
  - exact step_sorted.
  - exact step_orthonormal_eigenvectors.
  - exact step_orthonormal_rows.
  - rewrite step_kernel_matrix. exact step_spectral_decomposition.
Defined.

Lemma sum_n_nonneg (n : nat) (f : nat -> R) :
  (forall k, (k < n)%nat -> 0 <= f k) -> 0 <= sum_n n f.
Proof.
  intros H. replace 0 with (sum_n n (fun _ => 0))
    by (apply sum_n_zero; reflexivity).
  apply sum_n_le, H.
Qed.

(** For a solver output of the size of the matrix with increasing
    eigenvalues, no square root of [Test2] is taken of a negative
    number, so [err] is a number, and [Test2] ends in one of four ways.
    When the error of the square root exceeds [1e-8] it throws the
    accuracy text with the error in it and no deviate has been taken
    from the generator.  Otherwise it returns after taking the 500
    deviates of its ten draws, or throws the landmark text after one of
    the draws, or, only with Eigen's assertions and fewer than 50
    retained components, is aborted at the first draw. *)
Theorem Test2_failure_modes (NDEBUG : bool)
  (eigenSolver : MatrixType -> SelfAdjointEigenSolver)
  (show_double : R -> string) (gp_Predict : VectorType -> VectorType)
  (gp_call : VectorType -> VectorType -> R) (g : variate_generator) :
  let K := snd (kernel_matrix gp_Predict gp_call 50) in
  let es := eigenSolver K in
  let inaccurate :=
    Thrown (String.append "eigen decomposition not accurate enough. (error: "
              (String.append (show_double (err K es)) ")")) in
  let off := Thrown "samples do not corresponds to the landmarks." in
  let result :=
    Test2_body NDEBUG eigenSolver show_double gp_Predict gp_call g in
  square_solver 50 es -> Sorted Rle (eigenvalues es) ->
  (Forall (fun l => l > 1e-10) (kept_eigenvalues es)
   /\ 0 <= squaredNorm (sub (mul (Q K es) (transpose (Q K es))) K))
  /\ (err K es > 1e-8 -> result = (Completes inaccurate, g))
  /\ (fst result = Completes inaccurate -> err K es > 1e-8)
  /\ (err K es <= 1e-8 ->
      deviates (snd result) = deviates g
      /\ ((fst result = Completes (Returned tt)
           /\ drawn (snd result) = (drawn g + 500)%nat)
          \/ (fst result = Completes off
              /\ exists k, (0 < k <= 10)%nat
                           /\ drawn (snd result) = (drawn g + k * 50)%nat)
          \/ (fst result = Aborts /\ NDEBUG = false
              /\ numComponentsToKeep es <> 50%nat
              /\ drawn (snd result) = (drawn g + 50)%nat))).
Proof.
  cbv zeta. intros Hes Hsorted. split; [split|].
  - apply Forall_forall. intros l Hl.
    apply list_elem_of_lookup_total_1 in Hl as (k & Hk & <-).
    rewrite length_kept_eigenvalues in Hk.
    rewrite (lookup_kept_eigenvalues 50 _ Hes) by exact Hk.
    apply (kept_eigenvalue_gt 50 _ Hes Hsorted k Hk).
  - unfold squaredNorm. apply sum_n_nonneg. intros i _.
    apply sum_n_nonneg. intros j _. apply Rle_0_sqr.
  - unfold Test2_body. cbv zeta.
    destruct (kernel_matrix gp_Predict gp_call 50) as [mean K].
    cbn [snd] in *. unfold decomposition_check. cbv zeta.
    destruct (Rgt_dec (err K (eigenSolver K)) 1e-8) as [Hgt|Hle].
    + split; [intros _; reflexivity|]. split; [intros _; exact Hgt|].
      intros Hle. lra.
    + split; [intros Hgt; contradiction|].
      pose proof (sampling_run_cases NDEBUG 10 50
                    (rot K (eigenSolver K)) (scl (eigenSolver K)) mean g)
        as Hrun. cbv zeta in Hrun.
      destruct (sampling_run NDEBUG 10 50 _ _ mean g) as [t g'].
      cbn [fst snd] in *. destruct Hrun as [Hd Hc]. split.
      * intros Ht. exfalso.
        destruct Hc as [[H _]|[[H _]|[H _]]]; rewrite H in Ht;
          try discriminate; injection Ht as Ht; cbn in Ht; discriminate.
      * intros _. split; [exact Hd|].
        destruct Hc as [[H1 H2]|[(H1 & k & Hk & H2)|(H1 & H2 & H3 & _ & H5)]].
        -- left. split; [exact H1|]. rewrite H2. lia.
        -- right. left. split; [exact H1|]. exists k. split; assumption.
        -- right. right. rewrite length_scl in H3. repeat split; assumption.
Qed.

Lemma Test2_failure_modes_witness :
  let K := snd (kernel_matrix (fun x => x) step_covariance 50) in
  let es := step_solver in
  let inaccurate :=
    Thrown (String.append "eigen decomposition not accurate enough. (error: "
              (String.append EmptyString ")")) in
  let off := Thrown "samples do not corresponds to the landmarks." in
  let result :=
    Test2_body false (fun _ => step_solver) (fun _ => EmptyString)
      (fun x => x) step_covariance
      {| deviates := fun k => INR k; drawn := 0 |} in
  (Forall (fun l => l > 1e-10) (kept_eigenvalues es)
   /\ 0 <= squaredNorm (sub (mul (Q K es) (transpose (Q K es))) K))
  /\ (err K es > 1e-8
      -> result
         = (Completes inaccurate, {| deviates := fun k => INR k; drawn := 0 |}))
  /\ (fst result = Completes inaccurate -> err K es > 1e-8)
  /\ (err K es <= 1e-8 ->
      deviates (snd result) = (fun k => INR k)
      /\ ((fst result = Completes (Returned tt)
           /\ drawn (snd result) = (0 + 500)%nat)
          \/ (fst result = Completes off
              /\ exists k, (0 < k <= 10)%nat
                           /\ drawn (snd result) = (0 + k * 50)%nat)
          \/ (fst result = Aborts /\ false = false
              /\ numComponentsToKeep es <> 50%nat
              /\ drawn (snd result) = (0 + 50)%nat))).
Proof.
  apply (Test2_failure_modes false (fun _ => step_solver)
           (fun _ => EmptyString) (fun x => x) step_covariance
           {| deviates := fun k => INR k; drawn := 0 |}).
  - exact step_square_solver.
  - exact step_sorted.
Defined.

End Test2RunFacts.
